(** * SLO compliance engine and trace analysis: a shallow embedding

    This development embeds two pieces of the repository in Rocq and
    proves properties of them:

    - [services/api/app/trace_metrics.py]: the SLO catalogue
      [SLO_DEFINITIONS], the observation recorder [track_request_for_slo]
      and the compliance evaluator [update_slo_compliance];
    - [scripts/trace_analyze.py]: the trace analyser [analyze_trace];
    - [scripts/slo_manager.py]: the health band shown by
      [display_slo_status].

    Python floats are modelled as exact rationals ([Q]); Prometheus
    metric families are finite maps from label tuples to values; log
    calls are recorded as structured records instead of formatted text. *)

From Stdlib Require Import ZArith QArith Qminmax Lqa.
From stdpp Require Import gmap strings list fin_maps sorting.

Local Open Scope string_scope.
Local Open Scope list_scope.

(** ** Python values and control effects *)

(** A Python call either returns a value or raises an exception, which is
    identified here by the name of its class. *)
Inductive outcome (A : Type) : Type :=
| Returned (a : A)
| Raised (exc_class : string).
Arguments Returned {A} a.
Arguments Raised {A} exc_class.

(** [x < y] on floats. *)
Definition Qltb (x y : Q) : bool :=
  match (x ?= y)%Q with Lt => true | _ => false end.

(** [x > y] on floats. *)
Definition Qgtb (x y : Q) : bool := Qltb y x.

(** [x >= y] on integers. *)
Definition Zgeb (x y : Z) : bool := (y <=? x)%Z.

(** The builtin [max(a, b)]: the first argument is kept unless the second
    is strictly greater. *)
Definition py_max (a b : Q) : Q := if Qgtb b a then b else a.

(** Float division [x / y] raises [ZeroDivisionError] on a zero divisor. *)
Definition py_truediv (x y : Q) : outcome Q :=
  if Qeq_bool y 0 then Raised "ZeroDivisionError" else Returned (x / y)%Q.

(** ** The SLO catalogue (trace_metrics.py, lines 85-111) *)

Record SloDefinition : Type := {
  description : string;
  target : Q;
  latency_target : Q;
  error_budget : Q;
  windows : list string;
  endpoints : list string
}.

Definition api_health_def : SloDefinition := {|
  description := "API Health endpoint latency";
  target := 95 # 100;
  latency_target := 1 # 10;
  error_budget := 5 # 100;
  windows := ["5m"; "1h"; "24h"];
  endpoints := ["health_check"; "read_root"; "/health"]
|}.

Definition external_data_def : SloDefinition := {|
  description := "External data retrieval latency";
  target := 90 # 100;
  latency_target := 3 # 10;
  error_budget := 10 # 100;
  windows := ["5m"; "1h"; "24h"];
  endpoints := ["get_external_data"]
|}.

Definition data_access_def : SloDefinition := {|
  description := "Database access operations latency";
  target := 95 # 100;
  latency_target := 2 # 10;
  error_budget := 5 # 100;
  windows := ["5m"; "1h"; "24h"];
  endpoints := ["read_users"; "read_items"; "create_user"; "create_item"]
|}.

Definition SLO_DEFINITIONS : gmap string SloDefinition :=
  <["api_health" := api_health_def]>
    (<["external_data" := external_data_def]>
       (<["data_access" := data_access_def]> ∅)).

(** ** The metrics sink and the logger *)

Inductive log_level : Type := DEBUG | INFO | WARNING.

(** One constructor per logging call of trace_metrics.py; the arguments
    are the values interpolated into the message. *)
Inductive log_message : Type :=
| SloNotFound (slo_name : string)
| EndpointNotInSlo (endpoint slo_name : string) (slo_endpoints : list string)
| RecordingSlo (slo_name endpoint : string) (latency : Q) (is_error : bool)
| EndpointNotConfigured (endpoint slo_name : string)
| SloPerformance (slo_name endpoint : string) (latency_ms target_ms : Q)
    (is_within_slo : bool) (trace_id : string)
| InvalidWindow (window : string)
| UnknownSlo (slo_name : string)
| BudgetCriticallyLow (slo_name : string) (budget_remaining : Q) (window : string)
| BudgetBelowHalf (slo_name : string) (budget_remaining : Q) (window : string).

(** The process-wide state the two SLO functions act on: the four SLO
    metric families, keyed by their label values, the records handed to
    the logger, and the trace id of the current span, if there is one. *)
Record Sink : Type := {
  SLO_LATENCY_BUCKET : gmap (string * string) (list Q);
  SLO_ERROR_COUNTER : gmap (string * string) nat;
  SLO_COMPLIANCE : gmap (string * string * string) Q;
  SLO_ERROR_BUDGET : gmap (string * string) Q;
  logged : list (log_level * log_message);
  current_trace_id : option string
}.

Definition empty_sink : Sink := {|
  SLO_LATENCY_BUCKET := ∅;
  SLO_ERROR_COUNTER := ∅;
  SLO_COMPLIANCE := ∅;
  SLO_ERROR_BUDGET := ∅;
  logged := [];
  current_trace_id := None
|}.

(** A small state-and-exception monad for code that writes to the sink. *)
Definition M (A : Type) : Type := Sink → outcome A * Sink.

Definition ret {A} (a : A) : M A := λ s, (Returned a, s).

Definition bind {A B} (k : A → M B) (m : M A) : M B :=
  λ s, match m s with
       | (Returned a, s') => k a s'
       | (Raised e, s') => (Raised e, s')
       end.

Definition lift {A} (o : outcome A) : M A := λ s, (o, s).

(** The instances give [M] stdpp's notation: [x ← m; k] and [m;; k]. *)
#[global] Instance M_ret : MRet M := @ret.
#[global] Instance M_bind : MBind M := @bind.

(** [Histogram.labels(endpoint, slo).observe(v)] *)
Definition observe_latency (endpoint slo : string) (v : Q) : M unit :=
  λ s, (Returned tt,
        {| SLO_LATENCY_BUCKET :=
             <[(endpoint, slo) :=
                 default [] (SLO_LATENCY_BUCKET s !! (endpoint, slo)) ++ [v]]>
               (SLO_LATENCY_BUCKET s);
           SLO_ERROR_COUNTER := SLO_ERROR_COUNTER s;
           SLO_COMPLIANCE := SLO_COMPLIANCE s;
           SLO_ERROR_BUDGET := SLO_ERROR_BUDGET s;
           logged := logged s;
           current_trace_id := current_trace_id s |}).

(** [Counter.labels(endpoint, slo).inc()] *)
Definition inc_error (endpoint slo : string) : M unit :=
  λ s, (Returned tt,
        {| SLO_LATENCY_BUCKET := SLO_LATENCY_BUCKET s;
           SLO_ERROR_COUNTER :=
             <[(endpoint, slo) :=
                 S (default 0 (SLO_ERROR_COUNTER s !! (endpoint, slo)))]>
               (SLO_ERROR_COUNTER s);
           SLO_COMPLIANCE := SLO_COMPLIANCE s;
           SLO_ERROR_BUDGET := SLO_ERROR_BUDGET s;
           logged := logged s;
           current_trace_id := current_trace_id s |}).

(** [SLO_COMPLIANCE.labels(endpoint, slo, window).set(v)] *)
Definition set_compliance (endpoint slo window : string) (v : Q) : M unit :=
  λ s, (Returned tt,
        {| SLO_LATENCY_BUCKET := SLO_LATENCY_BUCKET s;
           SLO_ERROR_COUNTER := SLO_ERROR_COUNTER s;
           SLO_COMPLIANCE := <[(endpoint, slo, window) := v]> (SLO_COMPLIANCE s);
           SLO_ERROR_BUDGET := SLO_ERROR_BUDGET s;
           logged := logged s;
           current_trace_id := current_trace_id s |}).

(** [SLO_ERROR_BUDGET.labels(slo, window).set(v)] *)
Definition set_error_budget (slo window : string) (v : Q) : M unit :=
  λ s, (Returned tt,
        {| SLO_LATENCY_BUCKET := SLO_LATENCY_BUCKET s;
           SLO_ERROR_COUNTER := SLO_ERROR_COUNTER s;
           SLO_COMPLIANCE := SLO_COMPLIANCE s;
           SLO_ERROR_BUDGET := <[(slo, window) := v]> (SLO_ERROR_BUDGET s);
           logged := logged s;
           current_trace_id := current_trace_id s |}).

(** [logger.debug / info / warning] *)
Definition logger (lvl : log_level) (msg : log_message) : M unit :=
  λ s, (Returned tt,
        {| SLO_LATENCY_BUCKET := SLO_LATENCY_BUCKET s;
           SLO_ERROR_COUNTER := SLO_ERROR_COUNTER s;
           SLO_COMPLIANCE := SLO_COMPLIANCE s;
           SLO_ERROR_BUDGET := SLO_ERROR_BUDGET s;
           logged := logged s ++ [(lvl, msg)];
           current_trace_id := current_trace_id s |}).

(** The trace id of the current span, or ["unknown"]. *)
Definition get_trace_id : M string :=
  λ s, (Returned (default "unknown" (current_trace_id s)), s).

(** ** The observation recorder (trace_metrics.py, lines 248-292) *)

Definition track_request_for_slo
    (endpoint slo_name : string) (latency : Q) (is_error : bool) : M unit :=
  match SLO_DEFINITIONS !! slo_name with
  | None => logger DEBUG (SloNotFound slo_name)
  | Some slo_def =>
    if negb (bool_decide (endpoint ∈ endpoints slo_def)) then
      logger DEBUG (EndpointNotInSlo endpoint slo_name (endpoints slo_def))
    else
      logger DEBUG (RecordingSlo slo_name endpoint latency is_error);;
      if negb (bool_decide (endpoint ∈ endpoints slo_def)) then
        logger WARNING (EndpointNotConfigured endpoint slo_name)
      else
        trace_id ← get_trace_id;
        observe_latency endpoint slo_name latency;;
        (if is_error then inc_error endpoint slo_name else ret tt);;
        let target_ms := (latency_target slo_def * 1000)%Q in
        let latency_ms := (latency * 1000)%Q in
        let is_within_slo := Qle_bool latency (latency_target slo_def) in
        logger DEBUG
          (SloPerformance slo_name endpoint latency_ms target_ms
             is_within_slo trace_id)
  end.

(** ** The compliance evaluator (trace_metrics.py, lines 295-344) *)

(** Lines 316-326: the remaining error budget of [slo_def] at a
    compliance ratio. *)
Definition error_budget_remaining
    (slo_def : SloDefinition) (compliance_ratio : Q) : outcome Q :=
  if Qltb compliance_ratio (target slo_def) then
    match py_truediv (target slo_def - compliance_ratio)%Q (error_budget slo_def) with
    | Returned budget_used_ratio => Returned (py_max 0 (1 - budget_used_ratio)%Q)
    | Raised e => Raised e
    end
  else Returned 1%Q.

(** Lines 334-344: the record logged when the budget is getting low. *)
Definition log_low_budget (slo_name : string) (budget_remaining : Q)
    (window : string) : M unit :=
  if Qltb budget_remaining (2 # 10) then
    logger WARNING (BudgetCriticallyLow slo_name budget_remaining window)
  else if Qltb budget_remaining (5 # 10) then
    logger INFO (BudgetBelowHalf slo_name budget_remaining window)
  else ret tt.

Definition update_slo_compliance
    (endpoint slo_name : string) (compliance_ratio : Q) (window : string)
    : M unit :=
  if negb (bool_decide (window ∈ ["immediate"; "5m"; "1h"; "24h"])) then
    logger WARNING (InvalidWindow window)
  else
    match SLO_DEFINITIONS !! slo_name with
    | None => logger WARNING (UnknownSlo slo_name)
    | Some slo_def =>
      set_compliance endpoint slo_name window compliance_ratio;;
      if negb (String.eqb window "immediate") then
        budget_remaining ← lift (error_budget_remaining slo_def compliance_ratio);
        set_error_budget slo_name window budget_remaining;;
        log_low_budget slo_name budget_remaining window
      else ret tt
    end.

(** ** The health band of the status display (slo_manager.py, lines 223-231) *)

Inductive health_band : Type := Healthy | Monitor | Critical.

Definition display_band (budget : Q) : health_band :=
  if Qgtb budget (5 # 10) then Healthy
  else if Qgtb budget (2 # 10) then Monitor
  else Critical.

(** ** Traces as returned by the trace store (Jaeger JSON) *)

(** Scalar JSON values, as they occur in tag values. *)
Inductive json_value : Type :=
| JStr (s : string)
| JBool (b : bool)
| JNum (n : Z)
| JNull.

(** A dictionary field that may be missing is an [option]; a missing list
    field is the empty list, which is the default the code reads it with. *)
Record Tag : Type := {
  tag_key : option json_value;
  tag_value : option json_value
}.

Record LogEntry : Type := {
  timestamp : option Z;
  fields : list Tag
}.

Record Span : Type := {
  processID : option string;
  operationName : option string;
  startTime : option Z;
  duration : option Z;
  tags : list Tag;
  logs : list LogEntry
}.

Record Process : Type := {
  serviceName : option string
}.

Record Trace : Type := {
  traceID : option string;
  spans : list Span;
  processes : gmap string Process
}.

(** [v == s] for a value read with [dict.get] and a string literal: only
    a string with the same characters is equal to it. *)
Definition py_eq_str (v : option json_value) (s : string) : bool :=
  match v with
  | Some (JStr s') => String.eqb s' s
  | _ => false
  end.

(** ** Builtins used by the analyser *)

Section Sorting.
Context {A : Type}.
(** [before x y]: the key of [x] may stand in front of the key of [y]. *)
Variable before : A → A → bool.

Fixpoint insert_by (x : A) (l : list A) : list A :=
  match l with
  | [] => [x]
  | y :: l' => if before x y then x :: y :: l' else y :: insert_by x l'
  end.

(** A stable sort: an element is placed in front of the elements after
    it in the input that it may stand in front of. *)
Definition stable_sort (l : list A) : list A := foldr insert_by [] l.
End Sorting.

(** [sorted(l, key=key)] with integer keys. *)
Definition sorted {A} (key : A → Z) (l : list A) : list A :=
  stable_sort (λ x y, (key x <=? key y)%Z) l.

(** [l.sort(key=key, reverse=True)] with float keys. *)
Definition sort_reverse {A} (key : A → Q) (l : list A) : list A :=
  stable_sort (λ x y, Qle_bool (key y) (key x)) l.

(** [max(l) if l else 0] *)
Definition max_or_zero (l : list Z) : Z :=
  match l with
  | [] => 0%Z
  | x :: l' => fold_left Z.max l' x
  end.

(** [sum(l)] *)
Definition sum (l : list Z) : Z := fold_left Z.add l 0%Z.

(** [d[k].append(v)] on a [defaultdict(list)]; the dictionary keeps its
    keys in the order of their first insertion. *)
Fixpoint defaultdict_append {V} (k : string) (v : V)
    (d : list (string * list V)) : list (string * list V) :=
  match d with
  | [] => [(k, [v])]
  | (k', vs) :: d' =>
    if String.eqb k' k then (k', vs ++ [v]) :: d'
    else (k', vs) :: defaultdict_append k v d'
  end.

(** ** The trace analyser (trace_analyze.py, lines 72-183) *)

Record CriticalPathEntry : Type := {
  cp_service : string;
  cp_operation : string;
  cp_duration : Z;
  cp_start : Z;
  cp_end : Z
}.

Record ErrorEntry : Type := {
  err_service : string;
  err_operation : string;
  err_duration : Z;
  err_logs : list LogEntry
}.

Record LongOperation : Type := {
  lo_service : string;
  lo_operation : string;
  lo_duration_ms : Q
}.

Record TraceAnalysis : Type := {
  trace_id : string;
  span_count : nat;
  total_duration_ms : Q;
  services : list string;
  service_count : nat;
  service_durations : list (string * Q);
  errors : list ErrorEntry;
  critical_path : list CriticalPathEntry;
  long_operations : list LongOperation
}.

(** The guard [process_id and process_id in processes], giving the
    process record when it holds. *)
Definition resolved_process (processes : gmap string Process) (span : Span)
    : option Process :=
  match processID span with
  | Some process_id =>
    if negb (String.eqb process_id "") then processes !! process_id else None
  | None => None
  end.

(** The service of a span as the critical path, the errors and the long
    operations compute it: ["unknown"] unless the guard holds. *)
Definition service_of (processes : gmap string Process) (span : Span) : string :=
  match resolved_process processes span with
  | Some process => default "unknown" (serviceName process)
  | None => "unknown"
  end.

(** Lines 86-91: the spans of each service. *)
Definition group_by_service (processes : gmap string Process) (spans : list Span)
    : list (string * list Span) :=
  fold_left
    (λ service_spans span,
       match resolved_process processes span with
       | Some process =>
         let service_name := default "unknown" (serviceName process) in
         defaultdict_append service_name span service_spans
       | None => service_spans
       end)
    spans [].

(** Lines 109-129: one iteration of the greedy loop over the sorted
    spans; the state is the path so far and [current_end]. *)
Definition critical_path_step (processes : gmap string Process)
    (st : list CriticalPathEntry * Z) (span : Span)
    : list CriticalPathEntry * Z :=
  let '(critical_path, current_end) := st in
  let start := default 0%Z (startTime span) in
  let end_ := (start + default 0%Z (duration span))%Z in
  if Zgeb start current_end then
    (critical_path ++
       [{| cp_service := service_of processes span;
           cp_operation := default "unknown" (operationName span);
           cp_duration := default 0%Z (duration span);
           cp_start := start;
           cp_end := end_ |}],
     end_)
  else (critical_path, current_end).

Definition find_critical_path (processes : gmap string Process)
    (spans : list Span) : list CriticalPathEntry :=
  match spans with
  | [] => []
  | _ =>
    let sorted_spans := sorted (λ s, default 0%Z (startTime s)) spans in
    fst (fold_left (critical_path_step processes) sorted_spans ([], 0%Z))
  end.

(** Lines 134-138: the scan of the tags of a span. *)
Definition has_error (span : Span) : bool :=
  existsb
    (λ tag, py_eq_str (tag_key tag) "error" && py_eq_str (tag_value tag) "true")
    (tags span).

(** Lines 132-151. *)
Definition find_errors (processes : gmap string Process) (spans : list Span)
    : list ErrorEntry :=
  fold_left
    (λ errors span,
       if has_error span then
         errors ++
           [{| err_service := service_of processes span;
               err_operation := default "unknown" (operationName span);
               err_duration := default 0%Z (duration span);
               err_logs := logs span |}]
       else errors)
    spans [].

(** Lines 154-171. *)
Definition find_long_operations (processes : gmap string Process)
    (spans : list Span) : list LongOperation :=
  let threshold_ms := 100%Q in
  let long_operations :=
    fold_left
      (λ long_operations span,
         let duration_ms := (inject_Z (default 0%Z (duration span)) / 1000)%Q in
         if Qgtb duration_ms threshold_ms then
           long_operations ++
             [{| lo_service := service_of processes span;
                 lo_operation := default "unknown" (operationName span);
                 lo_duration_ms := duration_ms |}]
         else long_operations)
      spans [] in
  sort_reverse lo_duration_ms long_operations.

Definition analyze_trace (trace : Trace) : TraceAnalysis :=
  let spans := spans trace in
  let processes := processes trace in
  let durations := map (λ span, default 0%Z (duration span)) spans in
  let total_duration := max_or_zero durations in
  let service_spans := group_by_service processes spans in
  let service_durations :=
    map (λ '(service, svc_spans),
           (service, sum (map (λ span, default 0%Z (duration span)) svc_spans)))
        service_spans in
  {| trace_id := default "Unknown" (traceID trace);
     span_count := length spans;
     total_duration_ms := (inject_Z total_duration / 1000)%Q;
     services := map fst service_spans;
     service_count := length service_spans;
     service_durations :=
       map (λ '(svc, dur), (svc, (inject_Z dur / 1000)%Q)) service_durations;
     errors := find_errors processes spans;
     critical_path := find_critical_path processes spans;
     long_operations := find_long_operations processes spans |}.

(** ** Sample traces *)

Definition mk_span (pid : option string) (op : string) (start dur : Z)
    (tgs : list Tag) : Span :=
  {| processID := pid; operationName := Some op; startTime := Some start;
     duration := Some dur; tags := tgs; logs := [] |}.

Definition error_tag (value : json_value) : Tag :=
  {| tag_key := Some (JStr "error"); tag_value := Some value |}.

(** The scenario of the specification: spans 0-50, 10-30 and 60-90. *)
Definition scenario_trace : Trace :=
  {| traceID := Some "scenario";
     spans := [mk_span (Some "p1") "span0" 0 50 [];
               mk_span (Some "p1") "span1" 10 20 [];
               mk_span (Some "p1") "span2" 60 30 []];
     processes := <["p1" := {| serviceName := Some "api" |}]> ∅ |}.

Definition tagged_trace : Trace :=
  {| traceID := Some "tagged";
     spans := [mk_span (Some "p1") "ok" 0 10 [error_tag (JStr "false")];
               mk_span (Some "p1") "boolean" 10 10 [error_tag (JBool true)]];
     processes := <["p1" := {| serviceName := Some "api" |}]> ∅ |}.

(** Two spans without a resolvable service: the first has no process id,
    the process id of the second is not in the process table. *)
Definition orphan_trace : Trace :=
  {| traceID := Some "orphan";
     spans := [mk_span None "GET /items" 0 250000 [error_tag (JStr "true")];
               mk_span (Some "p7") "SELECT" 300000 40 []];
     processes := <["p1" := {| serviceName := Some "api" |}]> ∅ |}.

(** The final state and the result of running a computation. *)
Definition exec {A} (m : M A) (s : Sink) : Sink := (m s).2.
Definition result {A} (m : M A) (s : Sink) : outcome A := (m s).1.

(** ** Definitions that follow the specification's wording *)

(** Error-budget math of the specification: with target [t] and budget
    [b], the remaining budget is [1] when the compliance ratio reaches the
    target and [max(0, 1 - (t - c) / b)] otherwise. *)
Definition spec_budget_remaining (t b c : Q) : Q :=
  if Qle_bool t c then 1%Q else Qmax 0 (1 - (t - c) / b)%Q.

(** The start time the analyser sorts by. *)
Definition start_of (span : Span) : Z := default 0%Z (startTime span).

(** The entry the specification gives a span on the critical path:
    service, operation, duration, start and end, the end being the start
    plus the duration. *)
Definition spec_path_entry (processes : gmap string Process) (span : Span)
    : CriticalPathEntry :=
  {| cp_service := service_of processes span;
     cp_operation := default "unknown" (operationName span);
     cp_duration := default 0%Z (duration span);
     cp_start := start_of span;
     cp_end := (start_of span + default 0%Z (duration span))%Z |}.

(** The greedy chain of the specification over spans already in start
    order: a span whose start is at least [current_end] is appended and
    [current_end] becomes its start plus its duration; any other span is
    skipped. *)
Fixpoint greedy_chain (processes : gmap string Process) (current_end : Z)
    (sorted_spans : list Span) : list CriticalPathEntry :=
  match sorted_spans with
  | [] => []
  | span :: rest =>
    if decide (current_end ≤ start_of span)%Z then
      spec_path_entry processes span
        :: greedy_chain processes
             (start_of span + default 0%Z (duration span))%Z rest
    else greedy_chain processes current_end rest
  end.

#[global] Instance json_value_eq_dec : EqDecision json_value.
Proof. solve_decision. Defined.

(** An error span of the specification: some tag of the span has the key
    "error" and the value "true", both as strings. *)
Definition is_error_span (span : Span) : Prop :=
  Exists
    (λ tag, tag_key tag = Some (JStr "error")
            ∧ tag_value tag = Some (JStr "true"))
    (tags span).

#[global] Instance is_error_span_dec (span : Span) : Decision (is_error_span span).
Proof. unfold is_error_span. apply _. Defined.

(** What the specification collects for an error span. *)
Definition spec_error_entry (processes : gmap string Process) (span : Span)
    : ErrorEntry :=
  {| err_service := service_of processes span;
     err_operation := default "unknown" (operationName span);
     err_duration := default 0%Z (duration span);
     err_logs := logs span |}.

(** A span whose service cannot be resolved: it has no process id, or
    its process id is not in the process table of the trace. *)
Definition unresolved (processes : gmap string Process) (span : Span) : Prop :=
  match processID span with
  | None => True
  | Some process_id => processes !! process_id = None
  end.

(** ** The SLO block of the health endpoint (main.py, lines 214-228) *)

Definition health_check_slo (duration : Q) (is_error : bool) : M unit :=
  track_request_for_slo "health_check" "api_health" duration is_error;;
  update_slo_compliance "health_check" "api_health"
    (if is_error then 0%Q else 1%Q) "immediate".

(** ** The SLO block of the metrics middleware
    (middleware/tracing_middleware.py, lines 52-76) *)

Definition dispatch_track_slo (endpoint_name : string) (duration : Q)
    (status_code : Z) : M unit :=
  let has_slo :=
    bool_decide (endpoint_name ∈ ["read_root"; "health_check";
                                  "get_external_data"; "read_users";
                                  "read_items"]) in
  if has_slo then
    let slo_name :=
      if bool_decide (endpoint_name ∈ ["read_root"; "health_check"]) then
        "api_health"
      else if String.eqb endpoint_name "get_external_data" then
        "external_data"
      else "data_access" in
    track_request_for_slo endpoint_name slo_name duration
      (Zgeb status_code 400)
  else ret tt.

(** ** The SLO manager (slo_manager.py) *)

(** Lines 57-83: the catalogue of the manager, in the order of the
    dictionary. It has the same objectives as the catalogue of the API,
    but "api_health" lacks the endpoint "/health". *)
Definition manager_api_health_def : SloDefinition := {|
  description := "API Health endpoint latency";
  target := 95 # 100;
  latency_target := 1 # 10;
  error_budget := 5 # 100;
  windows := ["5m"; "1h"; "24h"];
  endpoints := ["health_check"; "read_root"]
|}.

Definition MANAGER_SLO_DEFINITIONS : list (string * SloDefinition) :=
  [("api_health", manager_api_health_def);
   ("external_data", external_data_def);
   ("data_access", data_access_def)].

(** Lines 393-397 of [run_slo_test]: the first SLO of the catalogue that
    has the endpoint. *)
Fixpoint find_affected_slo (definitions : list (string * SloDefinition))
    (endpoint : string) : option string :=
  match definitions with
  | [] => None
  | (slo_name, slo_def) :: rest =>
    if existsb (λ e, String.eqb e endpoint) (endpoints slo_def) then Some slo_name
    else find_affected_slo rest endpoint
  end.

Definition affected_slo (endpoint : string) : option string :=
  find_affected_slo MANAGER_SLO_DEFINITIONS endpoint.


(** ** Ranking and summarising analyses (trace_analyze.py) *)

(** The values of [--sort]. *)
Inductive sort_field : Type := SortDuration | SortSpans | SortServices.

(** [l.sort(key=key, reverse=True)] with integer keys. *)
Definition sort_reverse_nat {A} (key : A → nat) (l : list A) : list A :=
  stable_sort (λ x y, (key y <=? key x)%nat) l.

(** The slice [l[:n]]: a negative [n] counts from the end. *)
Definition py_slice_to {A} (n : Z) (l : list A) : list A :=
  if (0 <=? n)%Z then take (Z.to_nat n) l
  else take (length l - Z.to_nat (- n)) l.

(** Lines 272-285 of [main]: analyse the traces, sort the analyses and
    keep the top ones; [top] is [None] when [--top] is not given. *)
Definition analyze_and_rank (sort : sort_field) (top : option Z)
    (traces : list Trace) : list TraceAnalysis :=
  let analyses := map analyze_trace traces in
  let analyses :=
    match sort with
    | SortDuration => sort_reverse total_duration_ms analyses
    | SortSpans => sort_reverse_nat span_count analyses
    | SortServices => sort_reverse_nat service_count analyses
    end in
  match top with
  | Some n => if (n =? 0)%Z then analyses else py_slice_to n analyses
  | None => analyses
  end.

(** Line 207 of [print_trace_summary]: the long operations that are
    shown. *)
Definition shown_long_operations (analysis : TraceAnalysis)
    : list LongOperation :=
  py_slice_to 5 (long_operations analysis).

(** ** Instrumentation wrappers (trace_metrics.py, lines 130-245) *)

(** The state the wrappers act on: their metric families, the clock read
    by [time.time()] and the trace id of the current span. *)
Record Telemetry : Type := {
  SPAN_DURATION : gmap (string * string * string) (list Q);
  ERROR_COUNTER : gmap (string * string * string) nat;
  OPERATION_COUNTER : gmap (string * string) nat;
  DB_OPERATION_LATENCY : gmap (string * string * string) (list Q);
  CACHE_OPERATION_LATENCY : gmap (string * string * string) (list Q);
  clock : Q;
  span_trace_id : option string
}.

Definition T (A : Type) : Type := Telemetry → outcome A * Telemetry.

Definition T_unit {A} (a : A) : T A := λ s, (Returned a, s).

Definition T_then {A B} (k : A → T B) (m : T A) : T B :=
  λ s, match m s with
       | (Returned a, s') => k a s'
       | (Raised e, s') => (Raised e, s')
       end.

#[global] Instance T_ret : MRet T := @T_unit.
#[global] Instance T_bind : MBind T := @T_then.

(** [raise] of an exception of class [e]. *)
Definition T_raise {A} (e : string) : T A := λ s, (Raised e, s).

(** [time.time()] *)
Definition time_time : T Q := λ s, (Returned (clock s), s).

(** The trace id of the current span, or ["unknown"]. *)
Definition telemetry_trace_id : T string :=
  λ s, (Returned (default "unknown" (span_trace_id s)), s).

Definition observe_span (service operation status : string) (v : Q) : T unit :=
  λ s, (Returned tt,
        {| SPAN_DURATION :=
             <[(service, operation, status) :=
                 default [] (SPAN_DURATION s !! (service, operation, status))
                   ++ [v]]> (SPAN_DURATION s);
           ERROR_COUNTER := ERROR_COUNTER s;
           OPERATION_COUNTER := OPERATION_COUNTER s;
           DB_OPERATION_LATENCY := DB_OPERATION_LATENCY s;
           CACHE_OPERATION_LATENCY := CACHE_OPERATION_LATENCY s;
           clock := clock s;
           span_trace_id := span_trace_id s |}).

Definition inc_trace_error (service operation error_type : string) : T unit :=
  λ s, (Returned tt,
        {| SPAN_DURATION := SPAN_DURATION s;
           ERROR_COUNTER :=
             <[(service, operation, error_type) :=
                 S (default 0 (ERROR_COUNTER s !! (service, operation, error_type)))]>
               (ERROR_COUNTER s);
           OPERATION_COUNTER := OPERATION_COUNTER s;
           DB_OPERATION_LATENCY := DB_OPERATION_LATENCY s;
           CACHE_OPERATION_LATENCY := CACHE_OPERATION_LATENCY s;
           clock := clock s;
           span_trace_id := span_trace_id s |}).

Definition inc_operation (service operation : string) : T unit :=
  λ s, (Returned tt,
        {| SPAN_DURATION := SPAN_DURATION s;
           ERROR_COUNTER := ERROR_COUNTER s;
           OPERATION_COUNTER :=
             <[(service, operation) :=
                 S (default 0 (OPERATION_COUNTER s !! (service, operation)))]>
               (OPERATION_COUNTER s);
           DB_OPERATION_LATENCY := DB_OPERATION_LATENCY s;
           CACHE_OPERATION_LATENCY := CACHE_OPERATION_LATENCY s;
           clock := clock s;
           span_trace_id := span_trace_id s |}).

Definition observe_db (operation_type table trace_id : string) (v : Q) : T unit :=
  λ s, (Returned tt,
        {| SPAN_DURATION := SPAN_DURATION s;
           ERROR_COUNTER := ERROR_COUNTER s;
           OPERATION_COUNTER := OPERATION_COUNTER s;
           DB_OPERATION_LATENCY :=
             <[(operation_type, table, trace_id) :=
                 default [] (DB_OPERATION_LATENCY s !! (operation_type, table, trace_id))
                   ++ [v]]> (DB_OPERATION_LATENCY s);
           CACHE_OPERATION_LATENCY := CACHE_OPERATION_LATENCY s;
           clock := clock s;
           span_trace_id := span_trace_id s |}).

Definition observe_cache (operation hit trace_id : string) (v : Q) : T unit :=
  λ s, (Returned tt,
        {| SPAN_DURATION := SPAN_DURATION s;
           ERROR_COUNTER := ERROR_COUNTER s;
           OPERATION_COUNTER := OPERATION_COUNTER s;
           DB_OPERATION_LATENCY := DB_OPERATION_LATENCY s;
           CACHE_OPERATION_LATENCY :=
             <[(operation, hit, trace_id) :=
                 default [] (CACHE_OPERATION_LATENCY s !! (operation, hit, trace_id))
                   ++ [v]]> (CACHE_OPERATION_LATENCY s);
           clock := clock s;
           span_trace_id := span_trace_id s |}).

(** [try: body] followed by [on_return] when the body returns and
    handled by [on_raise] when it raises. *)
Definition try_except {A B} (body : T A) (on_return : A → T B)
    (on_raise : string → T B) : T B :=
  λ s, match body s with
       | (Returned a, s') => on_return a s'
       | (Raised e, s') => on_raise e s'
       end.

(** [with cm: body], for a context manager whose [__enter__] does nothing
    and whose [__exit__] returns [None]: [__exit__] is called with the
    class of the exception of the body, if it raised one, and the
    exception is raised again after it. *)
Definition with_ {A} (exit : option string → T unit) (body : T A) : T A :=
  try_except body
    (λ a, exit None;; mret a)
    (λ e, exit (Some e);; T_raise e).

Section Wrappers.
(** Whether a class of exceptions derives from [Exception] (and is caught
    by [except Exception]) is given by the program that is wrapped. *)
Variable derives_from_Exception : string → bool.

(** Lines 131-181: the wrapper that the decorator puts around [func]. *)
Definition track_operation_time {A} (operation_name service : string)
    (func : T A) : T A :=
  start_time ← time_time;
  _ ← telemetry_trace_id;
  inc_operation service operation_name;;
  try_except func
    (λ result,
       now ← time_time;
       observe_span service operation_name "success" (now - start_time)%Q;;
       mret result)
    (λ e,
       if derives_from_Exception e then
         inc_trace_error service operation_name e;;
         now ← time_time;
         observe_span service operation_name "error" (now - start_time)%Q;;
         T_raise e
       else T_raise e).
End Wrappers.

(** Lines 184-213: [with track_db_operation(operation_type, table): body].
    The start time and the trace id are read when the context manager is
    made. *)
Definition track_db_operation {A} (operation_type table : string)
    (body : T A) : T A :=
  trace_id ← telemetry_trace_id;
  start_time ← time_time;
  with_
    (λ exc_type,
       now ← time_time;
       observe_db operation_type table trace_id (now - start_time)%Q;;
       match exc_type with
       | Some e => inc_trace_error "db" (operation_type +:+ "_" +:+ table) e
       | None => mret tt
       end)
    body.

(** Lines 216-245: [with track_cache_operation(operation, hit): body]. *)
Definition track_cache_operation {A} (operation : string) (hit : bool)
    (body : T A) : T A :=
  trace_id ← telemetry_trace_id;
  start_time ← time_time;
  with_
    (λ exc_type,
       now ← time_time;
       observe_cache operation (if hit then "true" else "false") trace_id
         (now - start_time)%Q;;
       match exc_type with
       | Some e => inc_trace_error "cache" operation e
       | None => mret tt
       end)
    body.

(** db_tracing/metrics.py, lines 114-121: the wrapper of [with_metrics]. *)
Definition with_metrics {A} (operation_type table : string) (func : T A) : T A :=
  track_db_operation operation_type table func.

(** The service a span is grouped under by the service statistics, if
    the guard holds for it. *)
Definition resolved_service (processes : gmap string Process) (span : Span)
    : option string :=
  (λ process, default "unknown" (serviceName process))
    <$> resolved_process processes span.

(** [d.get(k)] on a dictionary kept as a list of items. *)
Fixpoint items_get {V} (k : string) (d : list (string * V)) : option V :=
  match d with
  | [] => None
  | (k', v) :: d' => if String.eqb k' k then Some v else items_get k d'
  end.

(** The duration the analyser reads from a span. *)
Definition span_duration (span : Span) : Z := default 0%Z (duration span).

(** The entry of a span among the long operations. *)
Definition long_operation_entry (processes : gmap string Process) (span : Span)
    : LongOperation :=
  {| lo_service := service_of processes span;
     lo_operation := default "unknown" (operationName span);
     lo_duration_ms := (inject_Z (span_duration span) / 1000)%Q |}.

(** A sequence of calls of the recorder for one endpoint and SLO, one
    call for each pair of a latency and an error flag. *)
Fixpoint record_sequence (endpoint slo_name : string)
    (observations : list (Q * bool)) : M unit :=
  match observations with
  | [] => mret tt
  | (latency, is_error) :: rest =>
    track_request_for_slo endpoint slo_name latency is_error;;
    record_sequence endpoint slo_name rest
  end.

(** The value of the field an analysis is ranked by. *)
Definition ranking_key (sort : sort_field) (analysis : TraceAnalysis) : Q :=
  match sort with
  | SortDuration => total_duration_ms analysis
  | SortSpans => inject_Z (Z.of_nat (span_count analysis))
  | SortServices => inject_Z (Z.of_nat (service_count analysis))
  end.

(** Two states of the sink hold the same metrics (their logs may
    differ). *)
Definition same_metrics (s1 s2 : Sink) : Prop :=
  SLO_LATENCY_BUCKET s1 = SLO_LATENCY_BUCKET s2
  ∧ SLO_ERROR_COUNTER s1 = SLO_ERROR_COUNTER s2
  ∧ SLO_COMPLIANCE s1 = SLO_COMPLIANCE s2
  ∧ SLO_ERROR_BUDGET s1 = SLO_ERROR_BUDGET s2.

(** The effect of one call of the evaluator on the two gauges. *)
Definition compliance_after (endpoint slo_name : string) (c : Q) (window : string)
    (gauge : gmap (string * string * string) Q)
    : gmap (string * string * string) Q :=
  if bool_decide (window ∈ ["immediate"; "5m"; "1h"; "24h"]) then
    match SLO_DEFINITIONS !! slo_name with
    | Some _ => <[(endpoint, slo_name, window) := c]> gauge
    | None => gauge
    end
  else gauge.

Definition budget_after (slo_name : string) (c : Q) (window : string)
    (gauge : gmap (string * string) Q) : gmap (string * string) Q :=
  if bool_decide (window ∈ ["5m"; "1h"; "24h"]) then
    match SLO_DEFINITIONS !! slo_name with
    | Some d =>
      <[(slo_name, window) :=
          spec_budget_remaining (target d) (error_budget d) c]> gauge
    | None => gauge
    end
  else gauge.

(** Whether the recorder accepts an endpoint for an SLO. *)
Definition recorded (endpoint slo_name : string) : bool :=
  match SLO_DEFINITIONS !! slo_name with
  | Some d => bool_decide (endpoint ∈ endpoints d)
  | None => false
  end.

(** The spans sorted by start time ascending, as the specification has
    it: [sorted_spans] holds the spans of the trace, in ascending order of
    start time, spans with the same start time being in the order they
    have in the trace. *)
Definition sorted_by_start (spans sorted_spans : list Span) : Prop :=
  sorted_spans ≡ₚ spans
  ∧ StronglySorted (λ a b, start_of a ≤ start_of b)%Z sorted_spans
  ∧ ∀ start, filter (λ span, start_of span = start) sorted_spans
             = filter (λ span, start_of span = start) spans.

(** A trace whose spans are not in start order: the span that starts
    last comes first, and two spans start at 0. *)
Definition shuffled_trace : Trace :=
  {| traceID := Some "shuffled";
     spans := [mk_span (Some "p1") "late" 60 30 [];
               mk_span (Some "p1") "first" 0 50 [];
               mk_span (Some "p1") "twin" 0 5 [];
               mk_span (Some "p1") "inner" 10 20 []];
     processes := <["p1" := {| serviceName := Some "api" |}]> ∅ |}.

(** The spans of [shuffled_trace] in start order. *)
Definition shuffled_trace_sorted : list Span :=
  [mk_span (Some "p1") "first" 0 50 [];
   mk_span (Some "p1") "twin" 0 5 [];
   mk_span (Some "p1") "inner" 10 20 [];
   mk_span (Some "p1") "late" 60 30 []].

(** * Properties *)

(** ** Comparisons *)

Lemma Qltb_lt (x y : Q) : Qltb x y = true ↔ (x < y)%Q.
Proof.
  unfold Qltb. rewrite Qlt_alt. destruct (x ?= y)%Q; split; congruence.
Qed.

Lemma Qltb_ge (x y : Q) : Qltb x y = false ↔ (y <= x)%Q.
Proof.
  rewrite <- not_true_iff_false, Qltb_lt. split.
  - apply Qnot_lt_le.
  - apply Qle_not_lt.
Qed.

Lemma Qltb_Qle_bool (x y : Q) : Qltb x y = negb (Qle_bool y x).
Proof.
  destruct (Qltb x y) eqn:Hlt; symmetry.
  - apply negb_true_iff, not_true_iff_false. rewrite Qle_bool_iff.
    apply Qlt_not_le, Qltb_lt, Hlt.
  - apply negb_false_iff, Qle_bool_iff, Qltb_ge, Hlt.
Qed.

Lemma py_max_Qmax (x : Q) : py_max 0 x = Qmax 0 x.
Proof.
  unfold py_max, Qgtb, Qltb, Qmax, GenericMinMax.gmax.
  destruct (0 ?= x)%Q; reflexivity.
Qed.

Lemma py_max_0_bounds (x : Q) : (0 <= py_max 0 x)%Q ∧ (x <= py_max 0 x)%Q.
Proof.
  unfold py_max, Qgtb. destruct (Qltb 0 x) eqn:H.
  - apply Qltb_lt in H. split; [apply Qlt_le_weak, H | apply Qle_refl].
  - apply Qltb_ge in H. split; [apply Qle_refl | exact H].
Qed.

Lemma py_max_0_mono (x y : Q) : (x <= y)%Q → (py_max 0 x <= py_max 0 y)%Q.
Proof.
  intros Hxy. unfold py_max, Qgtb.
  destruct (Qltb 0 x) eqn:Hx, (Qltb 0 y) eqn:Hy;
    rewrite ?Qltb_lt, ?Qltb_ge in *; lra.
Qed.

(** ** The catalogue *)

Lemma SLO_DEFINITIONS_lookup (slo_name : string) (d : SloDefinition) :
  SLO_DEFINITIONS !! slo_name = Some d →
  d = api_health_def ∨ d = external_data_def ∨ d = data_access_def.
Proof.
  unfold SLO_DEFINITIONS. intros H.
  repeat (apply lookup_insert_Some in H as [[_ <-] | [_ H]]; [tauto |]).
  by rewrite lookup_empty in H.
Qed.

Lemma SLO_DEFINITIONS_error_budget_pos (slo_name : string) (d : SloDefinition) :
  SLO_DEFINITIONS !! slo_name = Some d → (0 < error_budget d)%Q.
Proof.
  intros H. apply SLO_DEFINITIONS_lookup in H as [-> | [-> | ->]]; reflexivity.
Qed.

Lemma SLO_DEFINITIONS_windows (slo_name : string) (d : SloDefinition) :
  SLO_DEFINITIONS !! slo_name = Some d → windows d = ["5m"; "1h"; "24h"].
Proof.
  intros H. apply SLO_DEFINITIONS_lookup in H as [-> | [-> | ->]]; reflexivity.
Qed.

(** ** The remaining error budget *)

Lemma py_truediv_nonzero (x y : Q) :
  ¬ (y == 0)%Q → py_truediv x y = Returned (x / y)%Q.
Proof.
  intros Hy. unfold py_truediv.
  destruct (Qeq_bool y 0) eqn:E; [| reflexivity].
  apply Qeq_bool_iff in E. contradiction.
Qed.

Lemma error_budget_remaining_spec (d : SloDefinition) (c : Q) :
  ¬ (error_budget d == 0)%Q →
  error_budget_remaining d c =
    Returned (spec_budget_remaining (target d) (error_budget d) c).
Proof.
  intros Hb. unfold error_budget_remaining, spec_budget_remaining.
  rewrite Qltb_Qle_bool. destruct (Qle_bool (target d) c); simpl.
  - reflexivity.
  - rewrite py_truediv_nonzero by exact Hb. by rewrite py_max_Qmax.
Qed.

Lemma Qdiv_pos_le (x y b : Q) : (0 < b)%Q → (x <= y)%Q → (x / b <= y / b)%Q.
Proof.
  intros Hb Hxy. unfold Qdiv. apply Qmult_le_compat_r; [exact Hxy |].
  apply Qlt_le_weak, Qinv_lt_0_compat, Hb.
Qed.

Lemma spec_budget_remaining_bounds (t b c : Q) :
  (0 < b)%Q →
  (0 <= spec_budget_remaining t b c)%Q ∧ (spec_budget_remaining t b c <= 1)%Q.
Proof.
  intros Hb. unfold spec_budget_remaining.
  destruct (Qle_bool t c) eqn:E; [split; discriminate |].
  apply not_true_iff_false in E. rewrite Qle_bool_iff in E.
  apply Qnot_le_lt in E.
  rewrite <- py_max_Qmax. split; [apply py_max_0_bounds |].
  assert (0 <= (t - c) / b)%Q as Hused.
  { apply Qle_shift_div_l; [exact Hb | lra]. }
  unfold py_max, Qgtb. destruct (Qltb 0 (1 - (t - c) / b)); lra.
Qed.

Lemma spec_budget_remaining_mono (t b c1 c2 : Q) :
  (0 < b)%Q → (c1 <= c2)%Q → (c2 < t)%Q →
  (spec_budget_remaining t b c1 <= spec_budget_remaining t b c2)%Q.
Proof.
  intros Hb H12 H2. unfold spec_budget_remaining.
  assert (Qle_bool t c1 = false) as ->.
  { apply not_true_iff_false. rewrite Qle_bool_iff. lra. }
  assert (Qle_bool t c2 = false) as ->.
  { apply not_true_iff_false. rewrite Qle_bool_iff. lra. }
  rewrite <- !py_max_Qmax. apply py_max_0_mono.
  assert ((t - c2) / b <= (t - c1) / b)%Q by (apply Qdiv_pos_le; [exact Hb | lra]).
  lra.
Qed.

(** ** Running the compliance evaluator *)

(** Unfolds the monad down to pairs of a result and a state. *)
Ltac run_M :=
  unfold exec, result, mbind, M_bind, bind, mret, M_ret, ret, lift,
    set_compliance, set_error_budget, observe_latency, inc_error, logger,
    get_trace_id in *;
  cbn [fst snd] in *.

Lemma log_low_budget_frame (slo_name : string) (v : Q) (window : string) (s : Sink) :
  let s' := exec (log_low_budget slo_name v window) s in
  result (log_low_budget slo_name v window) s = Returned tt
  ∧ SLO_LATENCY_BUCKET s' = SLO_LATENCY_BUCKET s
  ∧ SLO_ERROR_COUNTER s' = SLO_ERROR_COUNTER s
  ∧ SLO_COMPLIANCE s' = SLO_COMPLIANCE s
  ∧ SLO_ERROR_BUDGET s' = SLO_ERROR_BUDGET s.
Proof.
  unfold log_low_budget.
  destruct (Qltb v (2 # 10)); [| destruct (Qltb v (5 # 10))]; by run_M.
Qed.

Lemma update_slo_compliance_invalid_window
    (endpoint slo_name : string) (c : Q) (window : string) :
  window ∉ ["immediate"; "5m"; "1h"; "24h"] →
  update_slo_compliance endpoint slo_name c window =
    logger WARNING (InvalidWindow window).
Proof.
  intros Hw. unfold update_slo_compliance. by rewrite bool_decide_eq_false_2.
Qed.

Lemma update_slo_compliance_unknown
    (endpoint slo_name : string) (c : Q) (window : string) :
  window ∈ ["immediate"; "5m"; "1h"; "24h"] →
  SLO_DEFINITIONS !! slo_name = None →
  update_slo_compliance endpoint slo_name c window =
    logger WARNING (UnknownSlo slo_name).
Proof.
  intros Hw Hn. unfold update_slo_compliance.
  rewrite bool_decide_eq_true_2 by exact Hw. by rewrite Hn.
Qed.

Lemma update_slo_compliance_immediate
    (endpoint slo_name : string) (c : Q) (d : SloDefinition) :
  SLO_DEFINITIONS !! slo_name = Some d →
  update_slo_compliance endpoint slo_name c "immediate" =
    (set_compliance endpoint slo_name "immediate" c;; ret tt).
Proof.
  intros Hd. unfold update_slo_compliance. by rewrite Hd.
Qed.

Lemma update_slo_compliance_window
    (endpoint slo_name : string) (c : Q) (window : string) (d : SloDefinition) :
  SLO_DEFINITIONS !! slo_name = Some d →
  window ∈ ["5m"; "1h"; "24h"] →
  update_slo_compliance endpoint slo_name c window =
    (let v := spec_budget_remaining (target d) (error_budget d) c in
     set_compliance endpoint slo_name window c;;
     set_error_budget slo_name window v;;
     log_low_budget slo_name v window).
Proof.
  intros Hd Hw. unfold update_slo_compliance. rewrite Hd.
  rewrite error_budget_remaining_spec.
  - apply elem_of_cons in Hw as [-> | Hw]; [reflexivity |].
    apply elem_of_cons in Hw as [-> | Hw]; [reflexivity |].
    apply list_elem_of_singleton in Hw as ->. reflexivity.
  - apply SLO_DEFINITIONS_error_budget_pos in Hd. intros E. rewrite E in Hd.
    discriminate.
Qed.

Lemma exec_update_slo_compliance_window
    (endpoint slo_name : string) (c : Q) (window : string) (d : SloDefinition)
    (s : Sink) :
  SLO_DEFINITIONS !! slo_name = Some d →
  window ∈ ["5m"; "1h"; "24h"] →
  let v := spec_budget_remaining (target d) (error_budget d) c in
  let s' := exec (update_slo_compliance endpoint slo_name c window) s in
  result (update_slo_compliance endpoint slo_name c window) s = Returned tt
  ∧ SLO_LATENCY_BUCKET s' = SLO_LATENCY_BUCKET s
  ∧ SLO_ERROR_COUNTER s' = SLO_ERROR_COUNTER s
  ∧ SLO_COMPLIANCE s' = <[(endpoint, slo_name, window) := c]> (SLO_COMPLIANCE s)
  ∧ SLO_ERROR_BUDGET s' = <[(slo_name, window) := v]> (SLO_ERROR_BUDGET s).
Proof.
  intros Hd Hw v s'. subst s'.
  rewrite (update_slo_compliance_window _ _ _ _ d Hd Hw). fold v.
  run_M.
  match goal with
  | |- context [log_low_budget ?n ?x ?w ?t] =>
    destruct (log_low_budget_frame n x w t) as (Hr & H1 & H2 & H3 & H4)
  end.
  unfold exec, result in *. by rewrite Hr, H1, H2, H3, H4.
Qed.

Lemma window_cases (window : string) :
  window ∉ ["immediate"; "5m"; "1h"; "24h"]
  ∨ window = "immediate"
  ∨ window ∈ ["5m"; "1h"; "24h"].
Proof.
  destruct (decide (window ∈ ["immediate"; "5m"; "1h"; "24h"])) as [H | H].
  - right. apply elem_of_cons in H as [-> | H]; [by left | by right].
  - by left.
Qed.

Lemma update_slo_compliance_returns
    (endpoint slo_name : string) (c : Q) (window : string) (s : Sink) :
  result (update_slo_compliance endpoint slo_name c window) s = Returned tt.
Proof.
  destruct (window_cases window) as [Hw | [-> | Hw]].
  - by rewrite update_slo_compliance_invalid_window.
  - destruct (SLO_DEFINITIONS !! slo_name) as [d |] eqn:Hd.
    + by rewrite (update_slo_compliance_immediate _ _ _ d).
    + rewrite update_slo_compliance_unknown;
        [done | apply list_elem_of_here | done].
  - destruct (SLO_DEFINITIONS !! slo_name) as [d |] eqn:Hd.
    + by apply (exec_update_slo_compliance_window _ _ _ _ d).
    + rewrite update_slo_compliance_unknown;
        [done | by apply list_elem_of_further | done].
Qed.

Lemma exec_update_slo_compliance_immediate
    (endpoint slo_name : string) (c : Q) (s : Sink) :
  let s' := exec (update_slo_compliance endpoint slo_name c "immediate") s in
  SLO_LATENCY_BUCKET s' = SLO_LATENCY_BUCKET s
  ∧ SLO_ERROR_COUNTER s' = SLO_ERROR_COUNTER s
  ∧ SLO_ERROR_BUDGET s' = SLO_ERROR_BUDGET s
  ∧ SLO_COMPLIANCE s' =
      match SLO_DEFINITIONS !! slo_name with
      | Some _ => <[(endpoint, slo_name, "immediate") := c]> (SLO_COMPLIANCE s)
      | None => SLO_COMPLIANCE s
      end.
Proof.
  destruct (SLO_DEFINITIONS !! slo_name) as [d |] eqn:Hd.
  - by rewrite (update_slo_compliance_immediate _ _ _ d).
  - rewrite update_slo_compliance_unknown;
      [done | apply list_elem_of_here | done].
Qed.

(** ** Claims about the compliance evaluator *)

(** C1. For every SLO definition of the catalogue, with target [t] and
    error budget [b], an update for one of its windows writes
    [1] to the budget gauge when [compliance_ratio >= t] and
    [max(0, 1 - (t - compliance_ratio) / b)] otherwise; and whatever the
    arguments, the call either leaves the budget gauge as it was or
    writes exactly this value at [(slo_name, window)]. *)
Theorem error_budget_gauge_formula
    (endpoint slo_name : string) (c : Q) (window : string) (s : Sink) :
  let s' := exec (update_slo_compliance endpoint slo_name c window) s in
  (∀ d, SLO_DEFINITIONS !! slo_name = Some d → window ∈ windows d →
     SLO_ERROR_BUDGET s' =
       <[(slo_name, window) :=
           spec_budget_remaining (target d) (error_budget d) c]>
         (SLO_ERROR_BUDGET s))
  ∧ (SLO_ERROR_BUDGET s' = SLO_ERROR_BUDGET s
     ∨ ∃ d, SLO_DEFINITIONS !! slo_name = Some d
          ∧ SLO_ERROR_BUDGET s' =
              <[(slo_name, window) :=
                  spec_budget_remaining (target d) (error_budget d) c]>
                (SLO_ERROR_BUDGET s)).
Proof.
  intros s'. subst s'. split.
  - intros d Hd Hw. rewrite (SLO_DEFINITIONS_windows _ _ Hd) in Hw.
    by apply (exec_update_slo_compliance_window _ _ _ _ d).
  - destruct (window_cases window) as [Hw | [-> | Hw]].
    + left. by rewrite update_slo_compliance_invalid_window.
    + left. apply exec_update_slo_compliance_immediate.
    + destruct (SLO_DEFINITIONS !! slo_name) as [d |] eqn:Hd.
      * right. exists d. split; [done |].
        by apply (exec_update_slo_compliance_window _ _ _ _ d).
      * left. rewrite update_slo_compliance_unknown;
          [done | by apply list_elem_of_further | done].
Qed.

Lemma error_budget_gauge_formula_witness :
  SLO_DEFINITIONS !! "api_health" = Some api_health_def
  ∧ "5m" ∈ windows api_health_def
  ∧ SLO_ERROR_BUDGET
      (exec (update_slo_compliance "health_check" "api_health" (93 # 100) "5m")
         empty_sink) =
    <[("api_health", "5m") :=
        spec_budget_remaining (95 # 100) (5 # 100) (93 # 100)]> ∅.
Proof.
  split; [reflexivity |]. split; [apply list_elem_of_here |].
  apply (proj1 (error_budget_gauge_formula
                  "health_check" "api_health" (93 # 100) "5m" empty_sink)
           api_health_def).
  - reflexivity.
  - apply list_elem_of_here.
Defined.

(** The scenarios of the specification: compliance 0.93 leaves 0.6 of the
    budget, compliance 0.90 leaves none. *)
Example spec_budget_remaining_scenarios :
  (spec_budget_remaining (95 # 100) (5 # 100) (93 # 100) == 6 # 10)%Q
  ∧ (spec_budget_remaining (95 # 100) (5 # 100) (90 # 100) == 0)%Q.
Proof. split; reflexivity. Qed.

(** C2, as stated, fails: with a window outside the definition's
    windows the evaluator returns normally. *)
Lemma invalid_window_does_not_raise :
("2h" ∉ windows api_health_def)
  ∧ result (update_slo_compliance "health_check" "api_health" 1 "2h") empty_sink
    = Returned tt
  ∧ result (update_slo_compliance "health_check" "api_health" 1 "2h") empty_sink
    ≠ Raised "InvalidWindowError".
Proof.
  split; [| split].
  - intros H. repeat (apply elem_of_cons in H as [H | H]; [discriminate H |]).
    by apply elem_of_nil in H.
  - reflexivity.
  - discriminate.
Qed.

(** C2, amended. The evaluator never raises; for every window that is
    not one of "immediate", "5m", "1h", "24h" the call only logs a
    warning and returns, so that no gauge (and no other metric) is
    written. *)
Theorem invalid_window_is_logged_and_ignored
    (endpoint slo_name : string) (c : Q) (window : string) (s : Sink) :
  let s' := exec (update_slo_compliance endpoint slo_name c window) s in
  result (update_slo_compliance endpoint slo_name c window) s = Returned tt
  ∧ (window ∉ ["immediate"; "5m"; "1h"; "24h"] →
     SLO_COMPLIANCE s' = SLO_COMPLIANCE s
     ∧ SLO_ERROR_BUDGET s' = SLO_ERROR_BUDGET s
     ∧ SLO_LATENCY_BUCKET s' = SLO_LATENCY_BUCKET s
     ∧ SLO_ERROR_COUNTER s' = SLO_ERROR_COUNTER s
     ∧ logged s' = logged s ++ [(WARNING, InvalidWindow window)]).
Proof.
  intros s'. subst s'. split; [apply update_slo_compliance_returns |].
  intros Hw. by rewrite update_slo_compliance_invalid_window.
Qed.

Lemma invalid_window_is_logged_and_ignored_witness :
("2h" ∉ ["immediate"; "5m"; "1h"; "24h"])
  ∧ logged (exec (update_slo_compliance "health_check" "api_health" 1 "2h")
              empty_sink) = [(WARNING, InvalidWindow "2h")].
Proof.
  assert ("2h" ∉ ["immediate"; "5m"; "1h"; "24h"]) as Hw.
  { intros H. repeat (apply elem_of_cons in H as [H | H]; [discriminate H |]).
    by apply elem_of_nil in H. }
  split; [exact Hw |].
  apply (proj2 (invalid_window_is_logged_and_ignored
                  "health_check" "api_health" 1 "2h" empty_sink) Hw).
Defined.

(** C8. For an SLO definition with a positive error budget, the
    remaining budget is computed (the division does not fail), it lies in
    [[0, 1]], and below the target it does not increase when the
    compliance ratio decreases. *)
Theorem budget_remaining_bounded_monotone (d : SloDefinition) :
  (0 < error_budget d)%Q →
  (∀ c, ∃ v, error_budget_remaining d c = Returned v
           ∧ (0 <= v)%Q ∧ (v <= 1)%Q)
  ∧ (∀ c1 c2, (c1 <= c2)%Q → (c2 < target d)%Q →
       ∃ v1 v2, error_budget_remaining d c1 = Returned v1
              ∧ error_budget_remaining d c2 = Returned v2
              ∧ (v1 <= v2)%Q).
Proof.
  intros Hb.
  assert (¬ (error_budget d == 0)%Q) as Hnz.
  { intros E. rewrite E in Hb. discriminate. }
  split.
  - intros c. eexists. split; [by apply error_budget_remaining_spec |].
    by apply spec_budget_remaining_bounds.
  - intros c1 c2 H12 H2. do 2 eexists.
    split; [by apply error_budget_remaining_spec |].
    split; [by apply error_budget_remaining_spec |].
    by apply spec_budget_remaining_mono.
Qed.

Lemma budget_remaining_bounded_monotone_witness :
  (0 < error_budget api_health_def)%Q
  ∧ ∃ v, error_budget_remaining api_health_def (93 # 100) = Returned v
       ∧ (0 <= v)%Q ∧ (v <= 1)%Q.
Proof.
  assert (0 < error_budget api_health_def)%Q as Hb by reflexivity.
  split; [exact Hb |].
  apply (proj1 (budget_remaining_bounded_monotone api_health_def Hb)).
Defined.

(** C10. An update for the window "immediate" changes nothing but the
    compliance gauge at [(endpoint, slo_name, "immediate")] (and that
    only for an SLO of the catalogue): the budget gauge is the same
    afterwards for every [(slo, window)]. For the three windows of a
    definition the budget gauge is written at [(slo_name, window)]. *)
Theorem immediate_window_leaves_budget_gauge
    (endpoint slo_name : string) (c : Q) (s : Sink) :
  (let s' := exec (update_slo_compliance endpoint slo_name c "immediate") s in
   SLO_ERROR_BUDGET s' = SLO_ERROR_BUDGET s
   ∧ SLO_LATENCY_BUCKET s' = SLO_LATENCY_BUCKET s
   ∧ SLO_ERROR_COUNTER s' = SLO_ERROR_COUNTER s
   ∧ SLO_COMPLIANCE s' =
       match SLO_DEFINITIONS !! slo_name with
       | Some _ => <[(endpoint, slo_name, "immediate") := c]> (SLO_COMPLIANCE s)
       | None => SLO_COMPLIANCE s
       end)
  ∧ (∀ window,
       SLO_ERROR_BUDGET (exec (update_slo_compliance endpoint slo_name c window) s)
         ≠ SLO_ERROR_BUDGET s →
       window ≠ "immediate")
  ∧ (∀ window, is_Some (SLO_DEFINITIONS !! slo_name) →
       window ∈ ["5m"; "1h"; "24h"] →
       is_Some (SLO_ERROR_BUDGET
                  (exec (update_slo_compliance endpoint slo_name c window) s)
                  !! (slo_name, window))).
Proof.
  pose proof (exec_update_slo_compliance_immediate endpoint slo_name c s)
    as (H1 & H2 & H3 & H4).
  split; [done |]. split.
  - intros window Hne ->. by apply Hne.
  - intros window [d Hd] Hw.
    destruct (exec_update_slo_compliance_window endpoint slo_name c window d s
                Hd Hw) as (_ & _ & _ & _ & ->).
    rewrite lookup_insert_eq. by eexists.
Qed.

Lemma immediate_window_leaves_budget_gauge_witness :
  is_Some (SLO_DEFINITIONS !! "api_health")
  ∧ "1h" ∈ ["5m"; "1h"; "24h"]
  ∧ is_Some (SLO_ERROR_BUDGET
               (exec (update_slo_compliance "health_check" "api_health" 1 "1h")
                  empty_sink) !! ("api_health", "1h")).
Proof.
  assert (is_Some (SLO_DEFINITIONS !! "api_health")) as Hd
    by (exists api_health_def; reflexivity).
  assert ("1h" ∈ ["5m"; "1h"; "24h"]) as Hw
    by (apply list_elem_of_further, list_elem_of_here).
  split; [exact Hd |]. split; [exact Hw |].
  apply (proj2 (proj2 (immediate_window_leaves_budget_gauge
                         "health_check" "api_health" 1 empty_sink)) "1h" Hd Hw).
Defined.

(** The thresholds of the two classifications of a remaining budget.
    The display compares with [> 0.5] and [> 0.2], the log of the
    evaluator with [< 0.2] and [< 0.5]. *)
Lemma band_thresholds (budget : Q) :
  ((5 # 10 < budget)%Q → display_band budget = Healthy)
  ∧ ((2 # 10 < budget)%Q → (budget <= 5 # 10)%Q → display_band budget = Monitor)
  ∧ ((budget <= 2 # 10)%Q → display_band budget = Critical)
  ∧ ∀ slo_name window s,
      let s' := exec (log_low_budget slo_name budget window) s in
      ((budget < 2 # 10)%Q →
       logged s' = logged s ++ [(WARNING, BudgetCriticallyLow slo_name budget window)])
      ∧ ((2 # 10 <= budget)%Q → (budget < 5 # 10)%Q →
         logged s' = logged s ++ [(INFO, BudgetBelowHalf slo_name budget window)])
      ∧ ((5 # 10 <= budget)%Q → logged s' = logged s).
Proof.
  unfold display_band, log_low_budget, Qgtb.
  repeat split.
  - intros H. apply Qltb_lt in H. by rewrite H.
  - intros H1 H2. apply Qltb_ge in H2. apply Qltb_lt in H1. by rewrite H2, H1.
  - intros H. assert (budget <= 5 # 10)%Q as H' by lra.
    apply Qltb_ge in H, H'. by rewrite H', H.
  - intros H. apply Qltb_lt in H. by rewrite H.
  - intros H1 H2. apply Qltb_ge in H1. apply Qltb_lt in H2. by rewrite H1, H2.
  - intros H. assert (2 # 10 <= budget)%Q as H' by lra.
    apply Qltb_ge in H, H'. by rewrite H', H.
Qed.

(** ** Running the observation recorder *)

Lemma track_request_for_slo_unknown
    (endpoint slo_name : string) (latency : Q) (is_error : bool) :
  SLO_DEFINITIONS !! slo_name = None →
  track_request_for_slo endpoint slo_name latency is_error =
    logger DEBUG (SloNotFound slo_name).
Proof. intros Hn. unfold track_request_for_slo. by rewrite Hn. Qed.

Lemma track_request_for_slo_other_endpoint
    (endpoint slo_name : string) (latency : Q) (is_error : bool)
    (d : SloDefinition) :
  SLO_DEFINITIONS !! slo_name = Some d →
  endpoint ∉ endpoints d →
  track_request_for_slo endpoint slo_name latency is_error =
    logger DEBUG (EndpointNotInSlo endpoint slo_name (endpoints d)).
Proof.
  intros Hd He. unfold track_request_for_slo. rewrite Hd.
  by rewrite bool_decide_eq_false_2.
Qed.

Lemma exec_track_request_for_slo_match
    (endpoint slo_name : string) (latency : Q) (is_error : bool)
    (d : SloDefinition) (s : Sink) :
  SLO_DEFINITIONS !! slo_name = Some d →
  endpoint ∈ endpoints d →
  let s' := exec (track_request_for_slo endpoint slo_name latency is_error) s in
  result (track_request_for_slo endpoint slo_name latency is_error) s
    = Returned tt
  ∧ SLO_LATENCY_BUCKET s' =
      <[(endpoint, slo_name) :=
          default [] (SLO_LATENCY_BUCKET s !! (endpoint, slo_name)) ++ [latency]]>
        (SLO_LATENCY_BUCKET s)
  ∧ SLO_ERROR_COUNTER s' =
      (if is_error then
         <[(endpoint, slo_name) :=
             S (default 0 (SLO_ERROR_COUNTER s !! (endpoint, slo_name)))]>
           (SLO_ERROR_COUNTER s)
       else SLO_ERROR_COUNTER s)
  ∧ SLO_COMPLIANCE s' = SLO_COMPLIANCE s
  ∧ SLO_ERROR_BUDGET s' = SLO_ERROR_BUDGET s.
Proof.
  intros Hd He s'. subst s'. unfold track_request_for_slo. rewrite Hd.
  rewrite bool_decide_eq_true_2 by exact He.
  destruct is_error; by run_M.
Qed.

Lemma track_request_for_slo_returns
    (endpoint slo_name : string) (latency : Q) (is_error : bool) (s : Sink) :
  result (track_request_for_slo endpoint slo_name latency is_error) s
    = Returned tt.
Proof.
  destruct (SLO_DEFINITIONS !! slo_name) as [d |] eqn:Hd.
  - destruct (decide (endpoint ∈ endpoints d)) as [He | He].
    + by apply (exec_track_request_for_slo_match _ _ _ _ d).
    + by rewrite (track_request_for_slo_other_endpoint _ _ _ _ d).
  - by rewrite track_request_for_slo_unknown.
Qed.

(** ** Claims about the observation recorder *)

(** C6. A call never fails. If [slo_name] is not in the catalogue, or
    [endpoint] is not one of the endpoints of that SLO, no metric is
    changed. Otherwise exactly one sample, the latency, is added to the
    histogram at [(endpoint, slo_name)], and the error counter at
    [(endpoint, slo_name)] goes up by one if [is_error] is true and is
    unchanged if it is false. *)
Theorem record_filters_by_catalogue
    (endpoint slo_name : string) (latency : Q) (is_error : bool) (s : Sink) :
  let s' := exec (track_request_for_slo endpoint slo_name latency is_error) s in
  result (track_request_for_slo endpoint slo_name latency is_error) s
    = Returned tt
  ∧ (SLO_DEFINITIONS !! slo_name = None
     ∨ (∃ d, SLO_DEFINITIONS !! slo_name = Some d ∧ endpoint ∉ endpoints d) →
     SLO_LATENCY_BUCKET s' = SLO_LATENCY_BUCKET s
     ∧ SLO_ERROR_COUNTER s' = SLO_ERROR_COUNTER s
     ∧ SLO_COMPLIANCE s' = SLO_COMPLIANCE s
     ∧ SLO_ERROR_BUDGET s' = SLO_ERROR_BUDGET s)
  ∧ (∀ d, SLO_DEFINITIONS !! slo_name = Some d → endpoint ∈ endpoints d →
     SLO_LATENCY_BUCKET s' =
       <[(endpoint, slo_name) :=
           default [] (SLO_LATENCY_BUCKET s !! (endpoint, slo_name)) ++ [latency]]>
         (SLO_LATENCY_BUCKET s)
     ∧ SLO_ERROR_COUNTER s' =
         (if is_error then
            <[(endpoint, slo_name) :=
                S (default 0 (SLO_ERROR_COUNTER s !! (endpoint, slo_name)))]>
              (SLO_ERROR_COUNTER s)
          else SLO_ERROR_COUNTER s)
     ∧ SLO_COMPLIANCE s' = SLO_COMPLIANCE s
     ∧ SLO_ERROR_BUDGET s' = SLO_ERROR_BUDGET s).
Proof.
  intros s'. subst s'. split; [apply track_request_for_slo_returns |]. split.
  - intros [Hn | (d & Hd & He)].
    + by rewrite track_request_for_slo_unknown.
    + by rewrite (track_request_for_slo_other_endpoint _ _ _ _ d).
  - intros d Hd He.
    by apply (exec_track_request_for_slo_match _ _ _ _ d).
Qed.

Lemma health_check_in_api_health : "health_check" ∈ endpoints api_health_def.
Proof. apply list_elem_of_here. Defined.

Lemma record_filters_by_catalogue_witness :
  SLO_DEFINITIONS !! "api_health" = Some api_health_def
  ∧ "health_check" ∈ endpoints api_health_def
  ∧ SLO_LATENCY_BUCKET
      (exec (track_request_for_slo "health_check" "api_health" (3 # 100) true)
         empty_sink) = <[("health_check", "api_health") := [3 # 100]]> ∅
  ∧ SLO_ERROR_COUNTER
      (exec (track_request_for_slo "health_check" "api_health" (3 # 100) true)
         empty_sink) = <[("health_check", "api_health") := 1]> ∅.
Proof.
  split; [reflexivity |]. split; [exact health_check_in_api_health |].
  destruct (proj2 (proj2 (record_filters_by_catalogue
                            "health_check" "api_health" (3 # 100) true empty_sink))
              api_health_def eq_refl health_check_in_api_health)
    as (H1 & H2 & _).
  split; [exact H1 | exact H2].
Defined.

(** C3, as stated, fails: a negative latency is accepted and recorded. *)
Lemma negative_latency_does_not_raise :
  (-1 < 0)%Q
  ∧ result (track_request_for_slo "health_check" "api_health" (-1) false)
      empty_sink = Returned tt
  ∧ result (track_request_for_slo "health_check" "api_health" (-1) false)
      empty_sink ≠ Raised "InvalidObservationError"
  ∧ SLO_LATENCY_BUCKET
      (exec (track_request_for_slo "health_check" "api_health" (-1) false)
         empty_sink) !! ("health_check", "api_health") = Some [(-1)%Q].
Proof.
  split; [reflexivity |]. split; [reflexivity |]. split; [discriminate |].
  vm_compute. reflexivity.
Qed.

(** C3, amended. The recorder never raises, whatever its arguments: the
    latency is not validated, and a negative latency for an endpoint of
    the SLO is added to the histogram like any other sample. *)
Theorem record_never_raises
    (endpoint slo_name : string) (latency : Q) (is_error : bool) (s : Sink) :
  result (track_request_for_slo endpoint slo_name latency is_error) s
    = Returned tt
  ∧ ∀ d, (latency < 0)%Q →
      SLO_DEFINITIONS !! slo_name = Some d → endpoint ∈ endpoints d →
      SLO_LATENCY_BUCKET
        (exec (track_request_for_slo endpoint slo_name latency is_error) s)
        !! (endpoint, slo_name)
      = Some (default [] (SLO_LATENCY_BUCKET s !! (endpoint, slo_name))
                ++ [latency]).
Proof.
  split; [apply track_request_for_slo_returns |].
  intros d _ Hd He.
  destruct (exec_track_request_for_slo_match endpoint slo_name latency is_error
              d s Hd He) as (_ & -> & _).
  apply lookup_insert_eq.
Qed.

Lemma record_never_raises_witness :
  (-1 < 0)%Q
  ∧ SLO_DEFINITIONS !! "api_health" = Some api_health_def
  ∧ "health_check" ∈ endpoints api_health_def
  ∧ SLO_LATENCY_BUCKET
      (exec (track_request_for_slo "health_check" "api_health" (-1) false)
         empty_sink) !! ("health_check", "api_health") = Some [(-1)%Q].
Proof.
  assert (-1 < 0)%Q as Hneg by reflexivity.
  split; [exact Hneg |]. split; [reflexivity |].
  split; [exact health_check_in_api_health |].
  apply (proj2 (record_never_raises
                  "health_check" "api_health" (-1) false empty_sink)
           api_health_def Hneg eq_refl health_check_in_api_health).
Defined.

(** ** The stable sort *)

Section SortingFacts.
Context {A : Type} (before : A → A → bool).

Lemma insert_by_perm (x : A) (l : list A) : insert_by before x l ≡ₚ x :: l.
Proof.
  induction l as [| y l IH]; simpl; [done |].
  destruct (before x y); [done |].
  rewrite IH. apply perm_swap.
Qed.

Lemma stable_sort_perm (l : list A) : stable_sort before l ≡ₚ l.
Proof.
  induction l as [| x l IH]; simpl; [done |].
  unfold stable_sort in IH. by rewrite insert_by_perm, IH.
Qed.
End SortingFacts.

Section SortedFacts.
Context {A : Type} (key : A → Z).

Lemma insert_by_key_sorted (x : A) (l : list A) :
  StronglySorted (λ a b, key a ≤ key b)%Z l →
  StronglySorted (λ a b, key a ≤ key b)%Z
    (insert_by (λ a b, (key a <=? key b)%Z) x l).
Proof.
  induction 1 as [| y l Hl IH Hy]; simpl.
  - repeat constructor.
  - destruct (Z.leb_spec (key x) (key y)) as [Hle | Hgt].
    + constructor; [by constructor |].
      constructor; [done |].
      eapply Forall_impl; [exact Hy |]. simpl. intros z Hz. lia.
    + constructor; [exact IH |].
      rewrite insert_by_perm. constructor; [lia | exact Hy].
Qed.

(** The result is in ascending key order... *)
Lemma sorted_StronglySorted (l : list A) :
  StronglySorted (λ a b, key a ≤ key b)%Z (sorted key l).
Proof.
  unfold sorted, stable_sort.
  induction l as [| x l IH]; simpl; [constructor |].
  by apply insert_by_key_sorted.
Qed.

(** ... it has the elements of the input ... *)
Lemma sorted_perm (l : list A) : sorted key l ≡ₚ l.
Proof. apply stable_sort_perm. Qed.

Lemma insert_by_key_filter (k : Z) (x : A) (l : list A) :
  filter (λ a, key a = k) (insert_by (λ a b, (key a <=? key b)%Z) x l)
  = filter (λ a, key a = k) (x :: l).
Proof.
  induction l as [| y l IH]; simpl; [done |].
  destruct (Z.leb_spec (key x) (key y)) as [Hle | Hgt]; [done |].
  rewrite (filter_cons _ y), IH, !(filter_cons _ x), (filter_cons _ y).
  repeat case_decide; try done; lia.
Qed.

(** ... and elements with the same key keep their order. *)
Lemma sorted_stable (k : Z) (l : list A) :
  filter (λ a, key a = k) (sorted key l) = filter (λ a, key a = k) l.
Proof.
  unfold sorted, stable_sort.
  induction l as [| x l IH]; simpl; [done |].
  by rewrite insert_by_key_filter, !(filter_cons _ x), IH.
Qed.
End SortedFacts.

(** ** The critical path *)

Lemma Zgeb_decide (x y : Z) : Zgeb x y = bool_decide (y ≤ x)%Z.
Proof.
  unfold Zgeb. destruct (Z.leb_spec y x).
  - by rewrite bool_decide_eq_true_2.
  - rewrite bool_decide_eq_false_2; [done | lia].
Qed.

(** The loop adds the greedy chain of the remaining spans to the path
    built so far. *)
Lemma critical_path_loop (processes : gmap string Process) (l : list Span)
    (path : list CriticalPathEntry) (current_end : Z) :
  (fold_left (critical_path_step processes) l (path, current_end)).1
  = path ++ greedy_chain processes current_end l.
Proof.
  revert path current_end.
  induction l as [| span l IH]; intros path current_end; simpl.
  - by rewrite app_nil_r.
  - rewrite Zgeb_decide. fold (start_of span).
    destruct (decide (current_end ≤ start_of span)%Z) as [Hle | Hgt].
    + rewrite bool_decide_eq_true_2 by exact Hle.
      rewrite IH, <- app_assoc. reflexivity.
    + rewrite bool_decide_eq_false_2 by exact Hgt. apply IH.
Qed.

Lemma find_critical_path_greedy (processes : gmap string Process)
    (spans : list Span) :
  find_critical_path processes spans
  = greedy_chain processes 0 (sorted start_of spans).
Proof.
  unfold find_critical_path. destruct spans as [| span spans]; [done |].
  apply critical_path_loop.
Qed.

(** Every entry of a greedy chain starts at or after [current_end], and
    each entry ends before the next one starts. *)
Lemma greedy_chain_head (processes : gmap string Process) (l : list Span)
    (current_end : Z) (e : CriticalPathEntry) :
  greedy_chain processes current_end l !! 0 = Some e →
  (current_end ≤ cp_start e)%Z.
Proof.
  revert current_end. induction l as [| span l IH]; intros current_end; simpl.
  - done.
  - destruct (decide (current_end ≤ start_of span)%Z) as [Hle | Hgt].
    + simpl. intros [= <-]. exact Hle.
    + apply IH.
Qed.

Lemma greedy_chain_consecutive (processes : gmap string Process)
    (l : list Span) (current_end : Z) (i : nat) (e1 e2 : CriticalPathEntry) :
  greedy_chain processes current_end l !! i = Some e1 →
  greedy_chain processes current_end l !! S i = Some e2 →
  (cp_end e1 ≤ cp_start e2)%Z.
Proof.
  revert current_end i.
  induction l as [| span l IH]; intros current_end i; simpl; [done |].
  destruct (decide (current_end ≤ start_of span)%Z) as [Hle | Hgt].
  - destruct i as [| i]; simpl.
    + intros [= <-] H2. simpl. by apply greedy_chain_head in H2.
    + apply IH.
  - apply IH.
Qed.

(** Two lists in ascending key order with the same elements of each key,
    in the same order, are the same list. *)
Lemma stable_sorted_unique {A} (key : A → Z) (l1 l2 : list A) :
  StronglySorted (λ a b, key a ≤ key b)%Z l1 →
  StronglySorted (λ a b, key a ≤ key b)%Z l2 →
  (∀ k, filter (λ a, key a = k) l1 = filter (λ a, key a = k) l2) →
  l1 = l2.
Proof.
  intros H1. revert l2.
  induction H1 as [| x l1 Hl1 IH Hx]; intros l2 H2 Hfilter.
  - destruct l2 as [| y l2]; [done |].
    specialize (Hfilter (key y)). by rewrite filter_cons_True in Hfilter.
  - destruct H2 as [| y l2 Hl2 Hy].
    { specialize (Hfilter (key x)). by rewrite filter_cons_True in Hfilter. }
    assert (key x = key y) as Hkey.
    { apply Z.le_antisymm.
      - assert (y ∈ x :: l1) as Hin.
        { eapply (list_elem_of_filter (λ a, key a = key y)).
          rewrite Hfilter, filter_cons_True by done. apply list_elem_of_here. }
        apply elem_of_cons in Hin as [-> | Hin]; [done |].
        rewrite Forall_forall in Hx. by apply Hx.
      - assert (x ∈ y :: l2) as Hin.
        { eapply (list_elem_of_filter (λ a, key a = key x)).
          rewrite <- Hfilter, filter_cons_True by done. apply list_elem_of_here. }
        apply elem_of_cons in Hin as [-> | Hin]; [done |].
        rewrite Forall_forall in Hy. by apply Hy. }
    pose proof (Hfilter (key x)) as Hhead.
    rewrite filter_cons_True in Hhead by done.
    rewrite filter_cons_True in Hhead by done.
    injection Hhead as -> Htail.
    f_equal. apply IH; [done |].
    intros k. destruct (decide (key y = k)) as [<- | Hk]; [done |].
    specialize (Hfilter k). by rewrite !filter_cons_False in Hfilter.
Qed.

(** The sort of the model gives the spans sorted by start time. *)
Lemma sorted_sorted_by_start (spans : list Span) :
  sorted_by_start spans (sorted start_of spans).
Proof.
  split; [apply sorted_perm |]. split; [apply sorted_StronglySorted |].
  intros start. apply sorted_stable.
Qed.

(** C4. The critical path of the analysis is the greedy chain, started
    with [current_end = 0], over the spans sorted by start time ascending:
    there is such a sorted list of the spans, and whatever list holds the
    spans of the trace in ascending order of start time (spans with the
    same start time in their order in the trace), the critical path is
    its greedy chain. Consequently any entry of the critical path ends no
    later than the next entry starts. *)
Theorem critical_path_is_greedy_chain (trace : Trace) :
  let path := critical_path (analyze_trace trace) in
  (∃ sorted_spans, sorted_by_start (spans trace) sorted_spans)
  ∧ (∀ sorted_spans,
       sorted_by_start (spans trace) sorted_spans →
       path = greedy_chain (processes trace) 0 sorted_spans)
  ∧ ∀ (i : nat) (e1 e2 : CriticalPathEntry),
      path !! i = Some e1 → path !! S i = Some e2 →
      (cp_end e1 ≤ cp_start e2)%Z.
Proof.
  simpl. rewrite find_critical_path_greedy.
  split; [| split].
  - exists (sorted start_of (spans trace)). apply sorted_sorted_by_start.
  - intros sorted_spans (_ & Hsorted & Hstable). f_equal.
    apply (stable_sorted_unique start_of).
    + apply sorted_StronglySorted.
    + exact Hsorted.
    + intros k. by rewrite sorted_stable, Hstable.
  - intros i e1 e2. apply greedy_chain_consecutive.
Qed.

Example scenario_critical_path :
  map (λ e, (cp_operation e, cp_start e, cp_end e))
      (critical_path (analyze_trace scenario_trace))
  = [("span0", 0%Z, 50%Z); ("span2", 60%Z, 90%Z)].
Proof. reflexivity. Qed.

(** A trace that is not in start order: the path follows the start
    times, not the order of the spans in the trace. *)
Example shuffled_critical_path :
  map (λ e, (cp_operation e, cp_start e, cp_end e))
      (critical_path (analyze_trace shuffled_trace))
  = [("first", 0%Z, 50%Z); ("late", 60%Z, 90%Z)].
Proof. reflexivity. Qed.

Lemma shuffled_trace_sorted_by_start :
  sorted_by_start (spans shuffled_trace) shuffled_trace_sorted.
Proof.
  split; [| split].
  - symmetry.
    change (mk_span (Some "p1") "late" 60 30 []
              :: [mk_span (Some "p1") "first" 0 50 [];
                  mk_span (Some "p1") "twin" 0 5 [];
                  mk_span (Some "p1") "inner" 10 20 []]
            ≡ₚ [mk_span (Some "p1") "first" 0 50 [];
                mk_span (Some "p1") "twin" 0 5 [];
                mk_span (Some "p1") "inner" 10 20 []]
               ++ [mk_span (Some "p1") "late" 60 30 []]).
    apply Permutation_cons_append.
  - unfold shuffled_trace_sorted.
    repeat (constructor; [| repeat (constructor; [unfold start_of; simpl; lia |]);
                             constructor]).
    constructor.
  - intros start. unfold shuffled_trace_sorted. simpl.
    rewrite !filter_cons, filter_nil. unfold start_of. simpl.
    repeat case_decide; try done; lia.
Defined.

Lemma critical_path_is_greedy_chain_witness :
  sorted_by_start (spans shuffled_trace) shuffled_trace_sorted
  ∧ critical_path (analyze_trace shuffled_trace)
    = greedy_chain (processes shuffled_trace) 0 shuffled_trace_sorted
  ∧ ∃ e1 e2,
      critical_path (analyze_trace shuffled_trace) !! 0 = Some e1
      ∧ critical_path (analyze_trace shuffled_trace) !! 1 = Some e2
      ∧ (cp_end e1 ≤ cp_start e2)%Z.
Proof.
  split; [exact shuffled_trace_sorted_by_start |]. split.
  - apply (proj1 (proj2 (critical_path_is_greedy_chain shuffled_trace))
             shuffled_trace_sorted shuffled_trace_sorted_by_start).
  - eexists _, _. split; [reflexivity |]. split; [reflexivity |].
    apply (proj2 (proj2 (critical_path_is_greedy_chain shuffled_trace)) 0);
      reflexivity.
Defined.

(** ** The error spans *)

Lemma py_eq_str_true (v : option json_value) (s : string) :
  py_eq_str v s = true ↔ v = Some (JStr s).
Proof.
  destruct v as [[s' | b | n |] |]; simpl; try (split; [discriminate | done]).
  rewrite String.eqb_eq. split; [by intros -> | by intros [= ->]].
Qed.

Lemma has_error_spec (span : Span) : has_error span = true ↔ is_error_span span.
Proof.
  unfold has_error, is_error_span.
  rewrite existsb_exists, Exists_exists. split.
  - intros (tag & Hin & Htag). exists tag.
    apply andb_true_iff in Htag as [Hk Hv].
    rewrite py_eq_str_true in Hk, Hv. by rewrite <- list_elem_of_In in Hin.
  - intros (tag & Hin & Hk & Hv). exists tag.
    rewrite list_elem_of_In in Hin. split; [done |].
    apply andb_true_iff. by rewrite !py_eq_str_true.
Qed.

Lemma find_errors_loop (processes : gmap string Process) (l : list Span)
    (errors : list ErrorEntry) :
  fold_left
    (λ errors span,
       if has_error span then
         errors ++
           [{| err_service := service_of processes span;
               err_operation := default "unknown" (operationName span);
               err_duration := default 0%Z (duration span);
               err_logs := logs span |}]
       else errors)
    l errors
  = errors ++ (spec_error_entry processes <$> filter is_error_span l).
Proof.
  revert errors. induction l as [| span l IH]; intros errors; simpl.
  - by rewrite app_nil_r.
  - rewrite IH, filter_cons. destruct (has_error span) eqn:E.
    + apply has_error_spec in E. rewrite decide_True by exact E.
      by rewrite <- app_assoc.
    + apply not_true_iff_false in E. rewrite has_error_spec in E.
      by rewrite decide_False by exact E.
Qed.

Lemma filter_none {A} (P : A → Prop) `{!∀ x, Decision (P x)} (l : list A) :
  (∀ x, x ∈ l → ¬ P x) → filter P l = [].
Proof.
  induction l as [| x l IH]; intros Hl; [done |].
  rewrite filter_cons_False by (apply Hl, list_elem_of_here).
  apply IH. intros y Hy. by apply Hl, list_elem_of_further.
Qed.

(** C9. The errors of the analysis are the entries of exactly those
    spans, in their order, that carry a tag with key "error" and value
    "true", both compared as strings; so a trace whose tags have only the
    value "false" or the boolean true has no errors. *)
Theorem errors_are_the_error_tagged_spans (trace : Trace) :
  errors (analyze_trace trace)
  = (spec_error_entry (processes trace) <$> filter is_error_span (spans trace))
  ∧ ((∀ span tag, span ∈ spans trace → tag ∈ tags span →
        tag_value tag = Some (JStr "false") ∨ tag_value tag = Some (JBool true)) →
     errors (analyze_trace trace) = []).
Proof.
  assert (errors (analyze_trace trace)
          = (spec_error_entry (processes trace)
               <$> filter is_error_span (spans trace))) as Heq.
  { simpl. unfold find_errors. by rewrite find_errors_loop. }
  split; [exact Heq |].
  intros Hno. rewrite Heq.
  rewrite filter_none; [done |].
  intros span Hspan Herr. unfold is_error_span in Herr.
  apply Exists_exists in Herr as (tag & Htag & _ & Hv).
  destruct (Hno span tag Hspan Htag) as [H | H]; congruence.
Qed.

Example error_tag_true_is_collected :
  map err_operation
    (errors (analyze_trace
       {| traceID := Some "t";
          spans := [mk_span (Some "p1") "failed" 0 10 [error_tag (JStr "true")];
                    mk_span (Some "p1") "upper" 0 10 [error_tag (JStr "True")];
                    mk_span (Some "p1") "fine" 0 10 [error_tag (JStr "false")]];
          processes := ∅ |}))
  = ["failed"].
Proof. reflexivity. Qed.

Lemma errors_are_the_error_tagged_spans_witness :
  errors (analyze_trace tagged_trace) = [].
Proof.
  apply (proj2 (errors_are_the_error_tagged_spans tagged_trace)).
  intros span tag Hspan Htag.
  apply elem_of_cons in Hspan as [-> | Hspan].
  - apply list_elem_of_singleton in Htag as ->. by left.
  - apply list_elem_of_singleton in Hspan as ->.
    apply list_elem_of_singleton in Htag as ->. by right.
Defined.

(** ** Spans without a resolvable service *)

Lemma unresolved_resolved_process (processes : gmap string Process) (span : Span) :
  unresolved processes span → resolved_process processes span = None.
Proof.
  unfold unresolved, resolved_process.
  destruct (processID span) as [process_id |]; [| done].
  intros ->. by destruct (negb _).
Qed.

(** The critical path, the errors and the long operations name the
    service of such a span "unknown". *)
Lemma unresolved_service_of (processes : gmap string Process) (span : Span) :
  unresolved processes span → service_of processes span = "unknown".
Proof.
  intros H. unfold service_of. by rewrite unresolved_resolved_process.
Qed.

Lemma defaultdict_append_Forall {V} (P : V → Prop) (k : string) (v : V)
    (d : list (string * list V)) :
  P v → Forall (λ kv, Forall P kv.2) d →
  Forall (λ kv, Forall P kv.2) (defaultdict_append k v d).
Proof.
  intros Hv. induction 1 as [| [k' vs] d Hvs Hd IH]; simpl.
  - repeat constructor. exact Hv.
  - destruct (String.eqb k' k); constructor; simpl in *; try done.
    apply Forall_app. split; [done | by constructor].
Qed.

(** The service statistics leave such a span out: every span grouped
    under a service passed the guard. *)
Lemma group_by_service_resolved (processes : gmap string Process)
    (spans : list Span) :
  Forall (λ kv, Forall (λ span, is_Some (resolved_process processes span)) kv.2)
    (group_by_service processes spans).
Proof.
  unfold group_by_service.
  assert (Forall (λ kv : string * list Span,
            Forall (λ span, is_Some (resolved_process processes span)) kv.2) [])
    as Hacc by constructor.
  revert Hacc. generalize (@nil (string * list Span)) as acc.
  induction spans as [| span spans IH]; intros acc Hacc; simpl; [done |].
  apply IH. destruct (resolved_process processes span) as [process |] eqn:E;
    [| done].
  apply defaultdict_append_Forall; [by rewrite E | done].
Qed.

Lemma unresolved_not_grouped (processes : gmap string Process)
    (spans : list Span) (span : Span) (service : string) (svc_spans : list Span) :
  unresolved processes span →
  (service, svc_spans) ∈ group_by_service processes spans →
  span ∉ svc_spans.
Proof.
  intros Hun Hin Hspan.
  pose proof (group_by_service_resolved processes spans) as Hall.
  rewrite Forall_forall in Hall. specialize (Hall _ Hin). simpl in Hall.
  rewrite Forall_forall in Hall. specialize (Hall _ Hspan).
  rewrite unresolved_resolved_process in Hall by exact Hun.
  by destruct Hall.
Qed.

(** C5 on a trace of two spans, one without a process id and one whose
    process id is not in the process table: the critical path, the
    errors and the long operations give them the service "unknown", but
    the services and the per-service durations do not contain them. *)
Theorem unresolved_spans_missing_from_service_stats :
  let analysis := analyze_trace orphan_trace in
  Forall (unresolved (processes orphan_trace)) (spans orphan_trace)
  ∧ span_count analysis = 2
  ∧ services analysis = []
  ∧ service_count analysis = 0
  ∧ service_durations analysis = []
  ∧ map cp_service (critical_path analysis) = ["unknown"; "unknown"]
  ∧ map err_service (errors analysis) = ["unknown"]
  ∧ map lo_service (long_operations analysis) = ["unknown"].
Proof.
  split.
  - repeat constructor.
  - repeat split; reflexivity.
Qed.

(** * Further properties of the trace analyser *)

(** ** The empty trace and the total duration *)

(** X1. A trace without spans is analysed without failure: the count and
    the total duration are zero and every collection of the analysis is
    empty, whatever the process table holds. *)
Theorem analyze_trace_no_spans (trace : Trace) :
  spans trace = [] →
  let analysis := analyze_trace trace in
  span_count analysis = 0
  ∧ (total_duration_ms analysis == 0)%Q
  ∧ services analysis = []
  ∧ service_count analysis = 0
  ∧ service_durations analysis = []
  ∧ errors analysis = []
  ∧ critical_path analysis = []
  ∧ long_operations analysis = [].
Proof.
  intros Hs. unfold analyze_trace. rewrite Hs. simpl. by repeat split.
Qed.

Lemma analyze_trace_no_spans_witness :
  let trace := {| traceID := None; spans := []; processes := processes scenario_trace |} in
  spans trace = [] ∧ critical_path (analyze_trace trace) = [].
Proof.
  split; [reflexivity |].
  apply (analyze_trace_no_spans
           {| traceID := None; spans := []; processes := processes scenario_trace |}
           eq_refl).
Defined.

Lemma fold_left_max_ge (l : list Z) (a : Z) :
  (a ≤ fold_left Z.max l a)%Z ∧ Forall (λ x, x ≤ fold_left Z.max l a)%Z l.
Proof.
  revert a. induction l as [| x l IH]; intros a; simpl.
  - split; [lia | constructor].
  - destruct (IH (Z.max a x)) as [H1 H2]. split; [lia |].
    constructor; [lia | exact H2].
Qed.

Lemma fold_left_max_in (l : list Z) (a : Z) : fold_left Z.max l a ∈ a :: l.
Proof.
  revert a. induction l as [| x l IH]; intros a; simpl.
  - apply list_elem_of_here.
  - specialize (IH (Z.max a x)).
    apply elem_of_cons in IH as [-> | IH].
    + destruct (Z.max_spec a x) as [[_ ->] | [_ ->]].
      * apply list_elem_of_further, list_elem_of_here.
      * apply list_elem_of_here.
    + by do 2 apply list_elem_of_further.
Qed.

Lemma max_or_zero_spec (l : list Z) :
  Forall (λ x, x ≤ max_or_zero l)%Z l
  ∧ (l = [] → max_or_zero l = 0%Z)
  ∧ (l ≠ [] → max_or_zero l ∈ l).
Proof.
  destruct l as [| a l]; simpl.
  - by repeat split.
  - destruct (fold_left_max_ge l a) as [H1 H2].
    split; [by constructor |]. split; [done |].
    intros _. apply fold_left_max_in.
Qed.

(** X2. The total duration of the analysis is the largest duration of a
    single span (in milliseconds): no span lasts longer, and if there is a
    span, one of the spans lasts exactly that long. It is not the time
    from the first start to the last end. *)
Theorem total_duration_is_longest_span (trace : Trace) :
  ∃ longest : Z,
    total_duration_ms (analyze_trace trace) = (inject_Z longest / 1000)%Q
    ∧ (∀ span, span ∈ spans trace → (span_duration span ≤ longest)%Z)
    ∧ (spans trace ≠ [] →
       ∃ span, span ∈ spans trace ∧ span_duration span = longest).
Proof.
  exists (max_or_zero (map span_duration (spans trace))).
  destruct (max_or_zero_spec (map span_duration (spans trace)))
    as (Hle & _ & Hin).
  split; [reflexivity |]. split.
  - intros span Hspan. rewrite Forall_forall in Hle. apply Hle.
    apply list_elem_of_fmap. by exists span.
  - intros Hne.
    assert (map span_duration (spans trace) ≠ []) as Hne'.
    { destruct (spans trace); [done | discriminate]. }
    apply Hin, list_elem_of_fmap in Hne' as (span & Heq & Hspan).
    by exists span.
Qed.

(** A trace that lasts from 0 to 90 has a total duration of 50. *)
Example total_duration_scenario :
  (total_duration_ms (analyze_trace scenario_trace) == 50 / 1000)%Q.
Proof. reflexivity. Qed.

Lemma total_duration_is_longest_span_witness :
  ∃ span, span ∈ spans scenario_trace
        ∧ total_duration_ms (analyze_trace scenario_trace)
          = (inject_Z (span_duration span) / 1000)%Q.
Proof.
  destruct (total_duration_is_longest_span scenario_trace)
    as (longest & Htotal & _ & Hin).
  destruct (Hin ltac:(discriminate)) as (span & Hspan & Heq).
  exists span. split; [exact Hspan |]. by rewrite Heq.
Defined.

(** ** Stable sorting by any total order on keys *)

Section StableSortFacts.
Context {A : Type} (before : A → A → bool).
Hypothesis before_total : ∀ x y, before x y = false → before y x = true.
Hypothesis before_trans :
  ∀ x y z, before x y = true → before y z = true → before x z = true.

Lemma insert_by_sorted (x : A) (l : list A) :
  StronglySorted (λ a b, before a b = true) l →
  StronglySorted (λ a b, before a b = true) (insert_by before x l).
Proof.
  induction 1 as [| y l Hl IH Hy]; simpl.
  - repeat constructor.
  - destruct (before x y) eqn:Hxy.
    + constructor; [by constructor |].
      constructor; [done |].
      eapply Forall_impl; [exact Hy |]. simpl. intros z Hz.
      by apply (before_trans x y z).
    + constructor; [exact IH |].
      rewrite insert_by_perm. constructor; [by apply before_total | exact Hy].
Qed.

Lemma stable_sort_sorted (l : list A) :
  StronglySorted (λ a b, before a b = true) (stable_sort before l).
Proof.
  unfold stable_sort. induction l as [| x l IH]; simpl; [constructor |].
  by apply insert_by_sorted.
Qed.
End StableSortFacts.

Lemma StronglySorted_weaken {A} (R R' : A → A → Prop) (l : list A) :
  (∀ a b, R a b → R' a b) → StronglySorted R l → StronglySorted R' l.
Proof.
  intros HR. induction 1 as [| x l Hl IH Hx]; constructor; [done |].
  eapply Forall_impl; [exact Hx | apply HR].
Qed.

Lemma sort_reverse_sorted {A} (key : A → Q) (l : list A) :
  StronglySorted (λ a b, (key b <= key a)%Q) (sort_reverse key l).
Proof.
  unfold sort_reverse.
  eapply StronglySorted_weaken; [| apply stable_sort_sorted].
  - intros a b. apply Qle_bool_iff.
  - intros x y H. apply Qle_bool_iff.
    apply not_true_iff_false in H. rewrite Qle_bool_iff in H. lra.
  - intros x y z H1 H2. rewrite Qle_bool_iff in *. lra.
Qed.

Lemma sort_reverse_nat_sorted {A} (key : A → nat) (l : list A) :
  StronglySorted (λ a b, (key b ≤ key a)%nat) (sort_reverse_nat key l).
Proof.
  unfold sort_reverse_nat.
  eapply StronglySorted_weaken; [| apply stable_sort_sorted].
  - intros a b. apply Nat.leb_le.
  - intros x y H. apply Nat.leb_le. apply Nat.leb_gt in H. lia.
  - intros x y z H1 H2. rewrite Nat.leb_le in *. lia.
Qed.

(** ** The long operations *)

Lemma long_threshold (d : Z) :
  Qgtb (inject_Z d / 1000) 100 = bool_decide (100000 < d)%Z.
Proof.
  unfold Qgtb. destruct (decide (100000 < d)%Z) as [H | H].
  - rewrite bool_decide_eq_true_2 by exact H. apply Qltb_lt.
    unfold Qlt. simpl. lia.
  - rewrite bool_decide_eq_false_2 by exact H. apply Qltb_ge.
    unfold Qle. simpl. lia.
Qed.

Lemma find_long_operations_loop (processes : gmap string Process)
    (l : list Span) (acc : list LongOperation) :
  fold_left
    (λ long_operations span,
       let duration_ms := (inject_Z (default 0%Z (duration span)) / 1000)%Q in
       if Qgtb duration_ms 100 then
         long_operations ++
           [{| lo_service := service_of processes span;
               lo_operation := default "unknown" (operationName span);
               lo_duration_ms := duration_ms |}]
       else long_operations)
    l acc
  = acc ++ (long_operation_entry processes
              <$> filter (λ span, (100000 < span_duration span)%Z) l).
Proof.
  revert acc. induction l as [| span l IH]; intros acc; simpl.
  - by rewrite app_nil_r.
  - rewrite IH, filter_cons, long_threshold. fold (span_duration span).
    case_bool_decide as Hlong.
    + rewrite decide_True by exact Hlong. by rewrite <- app_assoc.
    + by rewrite decide_False by exact Hlong.
Qed.

Lemma long_operations_sorted (trace : Trace) :
  StronglySorted (λ a b, (lo_duration_ms b <= lo_duration_ms a)%Q)
    (long_operations (analyze_trace trace)).
Proof. apply sort_reverse_sorted. Qed.

(** X3. The long operations of the analysis are the entries of exactly
    the spans that last more than 100000 microseconds (a span of exactly
    100 ms is not long), every entry is above 100 ms, and they are in
    descending order of duration. *)
Theorem long_operations_over_threshold_descending (trace : Trace) :
  let operations := long_operations (analyze_trace trace) in
  operations ≡ₚ
    (long_operation_entry (processes trace)
       <$> filter (λ span, (100000 < span_duration span)%Z) (spans trace))
  ∧ Forall (λ op, (100 < lo_duration_ms op)%Q) operations
  ∧ StronglySorted (λ a b, (lo_duration_ms b <= lo_duration_ms a)%Q) operations.
Proof.
  simpl. unfold find_long_operations. cbv zeta.
  rewrite find_long_operations_loop. simpl.
  assert (sort_reverse lo_duration_ms
            (long_operation_entry (processes trace)
               <$> filter (λ span, (100000 < span_duration span)%Z) (spans trace))
          ≡ₚ long_operation_entry (processes trace)
               <$> filter (λ span, (100000 < span_duration span)%Z) (spans trace))
    as Hperm by apply stable_sort_perm.
  split; [exact Hperm |]. split; [| apply sort_reverse_sorted].
  rewrite Hperm. apply Forall_fmap, Forall_forall.
  intros span Hspan. apply list_elem_of_filter in Hspan as [Hlong _].
  simpl. apply Qltb_lt. fold (Qgtb (inject_Z (span_duration span) / 1000) 100).
  rewrite long_threshold. by apply bool_decide_eq_true_2.
Qed.

Example long_operations_boundary :
  map lo_operation
    (long_operations (analyze_trace
       {| traceID := None;
          spans := [mk_span None "exactly 100 ms" 0 100000 [];
                    mk_span None "above" 0 100001 [];
                    mk_span None "longest" 0 900000 []];
          processes := ∅ |}))
  = ["longest"; "above"].
Proof. reflexivity. Qed.

(** ** The shape of the critical path *)

Lemma greedy_chain_from_spans (processes : gmap string Process)
    (l : list Span) (current_end : Z) (e : CriticalPathEntry) :
  e ∈ greedy_chain processes current_end l →
  ∃ span, span ∈ l ∧ e = spec_path_entry processes span.
Proof.
  revert current_end. induction l as [| span l IH]; intros current_end; simpl.
  - by intros ?%elem_of_nil.
  - destruct (decide (current_end ≤ start_of span)%Z) as [Hle | Hgt].
    + intros [-> | He]%elem_of_cons.
      * exists span. split; [apply list_elem_of_here | done].
      * destruct (IH _ He) as (span' & Hin & ->).
        exists span'. split; [by apply list_elem_of_further | done].
    + intros He. destruct (IH _ He) as (span' & Hin & ->).
      exists span'. split; [by apply list_elem_of_further | done].
Qed.

Lemma greedy_chain_length (processes : gmap string Process)
    (l : list Span) (current_end : Z) :
  (length (greedy_chain processes current_end l) ≤ length l)%nat.
Proof.
  revert current_end. induction l as [| span l IH]; intros current_end; simpl.
  - done.
  - destruct (decide (current_end ≤ start_of span)%Z).
    + simpl. specialize (IH (start_of span + default 0 (duration span))%Z). lia.
    + specialize (IH current_end). lia.
Qed.

Lemma greedy_chain_ascending (processes : gmap string Process)
    (l : list Span) (current_end : Z) :
  StronglySorted (λ a b, start_of a ≤ start_of b)%Z l →
  Forall (λ e, current_end ≤ cp_start e)%Z (greedy_chain processes current_end l)
  ∧ StronglySorted (λ e1 e2, cp_start e1 ≤ cp_start e2)%Z
      (greedy_chain processes current_end l).
Proof.
  intros Hsorted. revert current_end.
  induction Hsorted as [| span l Hl IH Hspan]; intros current_end; simpl.
  - split; constructor.
  - assert (Forall (λ e, start_of span ≤ cp_start e)%Z
              (greedy_chain processes
                 (start_of span + default 0 (duration span))%Z l)) as Htail.
    { apply Forall_forall. intros e He.
      apply greedy_chain_from_spans in He as (span' & Hin & ->). simpl.
      rewrite Forall_forall in Hspan. by apply Hspan. }
    destruct (decide (current_end ≤ start_of span)%Z) as [Hle | Hgt].
    + split.
      * constructor; [exact Hle |].
        eapply Forall_impl; [exact Htail |]. simpl. intros e He. lia.
      * constructor; [apply IH | exact Htail].
    + apply IH.
Qed.

(** X4. Every entry of the critical path is the entry of a span of the
    trace, its end is its start plus its duration, and it starts at or
    after time 0; the entries are in ascending order of start time, and
    there are at most as many as the trace has spans. *)
Theorem critical_path_entries_are_spans (trace : Trace) :
  let path := critical_path (analyze_trace trace) in
  (∀ e, e ∈ path →
     (∃ span, span ∈ spans trace ∧ e = spec_path_entry (processes trace) span)
     ∧ (0 ≤ cp_start e)%Z
     ∧ cp_end e = (cp_start e + cp_duration e)%Z)
  ∧ StronglySorted (λ e1 e2, cp_start e1 ≤ cp_start e2)%Z path
  ∧ (length path ≤ span_count (analyze_trace trace))%nat.
Proof.
  simpl. rewrite find_critical_path_greedy.
  destruct (greedy_chain_ascending (processes trace)
              (sorted start_of (spans trace)) 0
              (sorted_StronglySorted start_of (spans trace)))
    as [Hstart Hasc].
  split; [| split].
  - intros e He. rewrite Forall_forall in Hstart.
    split; [| split; [by apply Hstart |]].
    + apply greedy_chain_from_spans in He as (span & Hin & ->).
      exists span. split; [| done]. by rewrite sorted_perm in Hin.
    + by apply greedy_chain_from_spans in He as (span & Hin & ->).
  - exact Hasc.
  - rewrite <- (Permutation_length (sorted_perm start_of (spans trace))).
    apply greedy_chain_length.
Qed.

Lemma critical_path_entries_are_spans_witness :
  ∃ e, critical_path (analyze_trace scenario_trace) !! 1 = Some e
     ∧ (0 ≤ cp_start e)%Z.
Proof.
  eexists. split; [reflexivity |].
  apply (proj1 (critical_path_entries_are_spans scenario_trace)).
  apply list_elem_of_further, list_elem_of_here.
Defined.

Lemma greedy_chain_nil (processes : gmap string Process) (l : list Span)
    (current_end : Z) :
  greedy_chain processes current_end l = []
  ↔ Forall (λ span, start_of span < current_end)%Z l.
Proof.
  induction l as [| span l IH]; simpl.
  - split; [constructor | done].
  - destruct (decide (current_end ≤ start_of span)%Z) as [Hle | Hgt].
    + split; [done |]. intros [H _]%Forall_cons. lia.
    + rewrite IH. split.
      * intros H. constructor; [lia | exact H].
      * by intros [_ H]%Forall_cons.
Qed.

Lemma greedy_chain_first_is_earliest (processes : gmap string Process)
    (l : list Span) (current_end : Z) (e : CriticalPathEntry) :
  StronglySorted (λ a b, start_of a ≤ start_of b)%Z l →
  greedy_chain processes current_end l !! 0 = Some e →
  ∀ span, span ∈ l → (current_end ≤ start_of span)%Z →
          (cp_start e ≤ start_of span)%Z.
Proof.
  induction 1 as [| first l Hl IH Hfirst]; simpl; [done |].
  destruct (decide (current_end ≤ start_of first)%Z) as [Hle | Hgt].
  - intros [= <-] span [-> | Hin]%elem_of_cons _; simpl; [lia |].
    rewrite Forall_forall in Hfirst. by apply Hfirst.
  - intros He span [-> | Hin]%elem_of_cons Hspan; [lia |].
    by apply IH.
Qed.

(** X5. The critical path is empty exactly when every span starts
    before time 0 (in particular for a trace without spans); and when it
    is not empty, its first entry starts no later than any span of the
    trace that starts at or after time 0. *)
Theorem critical_path_first_entry (trace : Trace) :
  let path := critical_path (analyze_trace trace) in
  (path = [] ↔ ∀ span, span ∈ spans trace → (start_of span < 0)%Z)
  ∧ (∀ e span, path !! 0 = Some e → span ∈ spans trace →
       (0 ≤ start_of span)%Z → (cp_start e ≤ start_of span)%Z).
Proof.
  simpl. rewrite find_critical_path_greedy. split.
  - rewrite greedy_chain_nil, Forall_forall.
    split; intros H span Hspan; apply H.
    + by rewrite sorted_perm.
    + by rewrite sorted_perm in Hspan.
  - intros e span He Hspan Hstart.
    eapply greedy_chain_first_is_earliest; eauto.
    + apply sorted_StronglySorted.
    + by rewrite sorted_perm.
Qed.

Lemma critical_path_first_entry_witness :
  ∃ e, critical_path (analyze_trace scenario_trace) !! 0 = Some e
     ∧ (cp_start e ≤ 60)%Z.
Proof.
  eexists. split; [reflexivity |].
  apply (proj2 (critical_path_first_entry scenario_trace) _
           (mk_span (Some "p1") "span2" 60 30 [])).
  - reflexivity.
  - do 2 apply list_elem_of_further. apply list_elem_of_here.
  - unfold start_of. simpl. lia.
Defined.

(** A trace recorded with negative start times has no critical path. *)
Example critical_path_negative_starts :
  critical_path (analyze_trace
    {| traceID := None;
       spans := [mk_span None "a" (-20) 5 []; mk_span None "b" (-10) 5 []];
       processes := ∅ |}) = [].
Proof. reflexivity. Qed.

(** ** The service statistics *)

Lemma items_get_defaultdict_append {V} (k k' : string) (v : V)
    (d : list (string * list V)) :
  items_get k' (defaultdict_append k v d)
  = if decide (k' = k) then Some (default [] (items_get k d) ++ [v])
    else items_get k' d.
Proof.
  induction d as [| [k0 vs] d IH]; simpl.
  - destruct (String.eqb_spec k k'); case_decide; by simplify_eq.
  - destruct (String.eqb_spec k0 k) as [-> | Hk0]; simpl.
    + destruct (String.eqb_spec k k'); case_decide; by simplify_eq.
    + rewrite IH.
      destruct (String.eqb_spec k0 k'); case_decide; by simplify_eq.
Qed.

Lemma defaultdict_append_keys {V} (k : string) (v : V)
    (d : list (string * list V)) :
  (defaultdict_append k v d).*1
  = if decide (k ∈ d.*1) then d.*1 else d.*1 ++ [k].
Proof.
  induction d as [| [k0 vs] d IH].
  - cbn [defaultdict_append fmap list_fmap fst].
    rewrite decide_False; [done | apply not_elem_of_nil].
  - cbn [defaultdict_append].
    destruct (String.eqb_spec k0 k) as [-> | Hk0];
      cbn [fmap list_fmap fst] in *.
    + rewrite decide_True; [done | apply list_elem_of_here].
    + rewrite IH. destruct (decide (k ∈ d.*1)) as [Hin | Hin].
      * rewrite decide_True; [done | by apply list_elem_of_further].
      * rewrite decide_False; [done |].
        intros [-> | H]%elem_of_cons; [done | by apply Hin].
Qed.

Lemma items_get_fmap {V W} (f : V → W) (k : string) (d : list (string * V)) :
  items_get k (map (λ '(k', v), (k', f v)) d) = f <$> items_get k d.
Proof.
  induction d as [| [k0 v] d IH]; simpl; [done |].
  by destruct (String.eqb k0 k).
Qed.

Section GroupByService.
Variable processes : gmap string Process.

Local Abbreviation step :=
  (λ (service_spans : list (string * list Span)) (span : Span),
     match resolved_process processes span with
     | Some process =>
       let service_name := default "unknown" (serviceName process) in
       defaultdict_append service_name span service_spans
     | None => service_spans
     end).

Local Abbreviation of_service k :=
  (λ span : Span, resolved_service processes span = Some k).

Lemma step_items_get (acc : list (string * list Span)) (span : Span) (k : string) :
  items_get k (step acc span)
  = if decide (resolved_service processes span = Some k)
    then Some (default [] (items_get k acc) ++ [span])
    else items_get k acc.
Proof.
  unfold resolved_service.
  destruct (resolved_process processes span) as [process |]; simpl.
  - rewrite items_get_defaultdict_append.
    repeat case_decide; by simplify_eq.
  - done.
Qed.

Lemma step_keys (acc : list (string * list Span)) (span : Span) :
  (step acc span).*1
  = match resolved_service processes span with
    | Some k => if decide (k ∈ acc.*1) then acc.*1 else acc.*1 ++ [k]
    | None => acc.*1
    end.
Proof.
  unfold resolved_service.
  destruct (resolved_process processes span) as [process |]; simpl; [| done].
  apply defaultdict_append_keys.
Qed.

Lemma group_fold_items_get (l : list Span) (acc : list (string * list Span))
    (k : string) :
  items_get k (fold_left step l acc)
  = if decide (filter (of_service k) l = [])
    then items_get k acc
    else Some (default [] (items_get k acc) ++ filter (of_service k) l).
Proof.
  revert acc. induction l as [| span l IH]; intros acc; simpl; [done |].
  rewrite IH, step_items_get, filter_cons.
  destruct (decide (resolved_service processes span = Some k)) as [Hk | Hk];
    simpl.
  - case_decide as Hl; [by rewrite Hl | by rewrite <- app_assoc].
  - done.
Qed.

Lemma group_fold_keys (l : list Span) (acc : list (string * list Span)) :
  (NoDup acc.*1 → NoDup (fold_left step l acc).*1)
  ∧ ∀ k, k ∈ (fold_left step l acc).*1
         ↔ k ∈ acc.*1 ∨ ∃ span, span ∈ l ∧ resolved_service processes span = Some k.
Proof.
  revert acc. induction l as [| span l IH]; intros acc; simpl.
  - split; [done |]. intros k. split; [by left |].
    intros [H | (span & []%elem_of_nil & _)]. exact H.
  - destruct (IH (step acc span)) as [IHnd IHin]. split.
    + intros Hnd. apply IHnd. rewrite step_keys.
      destruct (resolved_service processes span) as [k |]; [| done].
      case_decide as Hin; [done |].
      apply NoDup_app. split; [done |]. split; [| apply NoDup_singleton].
      intros x Hx ->%list_elem_of_singleton. by apply Hin.
    + intros k. rewrite IHin, step_keys. split.
      * intros [Hk | (span' & Hin & Hof)].
        -- destruct (resolved_service processes span) as [k0 |] eqn:E;
             [| by left].
           case_decide; [by left |].
           apply elem_of_app in Hk as [Hk | ->%list_elem_of_singleton];
             [by left |].
           right. exists span. split; [apply list_elem_of_here | done].
        -- right. exists span'. split; [by apply list_elem_of_further | done].
      * intros [Hk | (span' & [-> | Hin]%elem_of_cons & Hof)].
        -- left. destruct (resolved_service processes span) as [k0 |];
             [| done].
           case_decide; [done |]. apply elem_of_app. by left.
        -- left. rewrite Hof. case_decide; [done |].
           apply elem_of_app. right. apply list_elem_of_here.
        -- right. by exists span'.
Qed.
End GroupByService.

(** X6. The services of the analysis are, without repetition, the
    service names of the spans whose process id is set and in the process
    table ("unknown" for a process without a service name), and the
    service count is their number. *)
Theorem services_are_the_resolved_services (trace : Trace) :
  let analysis := analyze_trace trace in
  NoDup (services analysis)
  ∧ service_count analysis = length (services analysis)
  ∧ ∀ service, service ∈ services analysis
      ↔ ∃ span, span ∈ spans trace
              ∧ resolved_service (processes trace) span = Some service.
Proof.
  simpl. unfold group_by_service.
  destruct (group_fold_keys (processes trace) (spans trace) []) as [Hnd Hin].
  split; [apply Hnd, NoDup_nil_2 |]. split; [by rewrite length_map |].
  intros service. rewrite Hin. split; [| by right].
  by intros [[]%elem_of_nil | H].
Qed.

(** X7. The per-service durations have one item for each service of the
    analysis, in the same order, and the duration of a service is the sum
    of the durations of all the spans resolved to it, in milliseconds;
    overlapping spans are counted in full. *)
Theorem service_durations_sum_resolved_spans (trace : Trace) :
  let analysis := analyze_trace trace in
  (service_durations analysis).*1 = services analysis
  ∧ ∀ service, service ∈ services analysis →
      items_get service (service_durations analysis)
      = Some (inject_Z
                (sum (span_duration
                        <$> filter (λ span, resolved_service (processes trace) span
                                            = Some service) (spans trace)))
              / 1000)%Q.
Proof.
  simpl. split.
  - rewrite <- !list_fmap_compose. apply list_fmap_ext.
    by intros _ [service svc_spans] _.
  - intros service Hservice.
    rewrite (items_get_fmap (λ dur, (inject_Z dur / 1000)%Q)).
    rewrite (items_get_fmap
               (λ svc_spans,
                  sum (map (λ span, default 0%Z (duration span)) svc_spans))).
    unfold group_by_service. rewrite group_fold_items_get. simpl.
    case_decide as Hnil; [| done].
    exfalso.
    apply (group_fold_keys (processes trace) (spans trace) []) in Hservice
      as [[]%elem_of_nil | (span & Hspan & Hres)].
    eapply (filter_nil_not_elem_of _ _ span Hnil); eauto.
Qed.

Lemma api_in_scenario_services : "api" ∈ services (analyze_trace scenario_trace).
Proof. apply list_elem_of_here. Defined.

Lemma service_durations_sum_resolved_spans_witness :
  "api" ∈ services (analyze_trace scenario_trace)
  ∧ ∃ d, items_get "api" (service_durations (analyze_trace scenario_trace)) = Some d
       ∧ (d == 100 / 1000)%Q.
Proof.
  split; [exact api_in_scenario_services |].
  eexists. split.
  - apply (proj2 (service_durations_sum_resolved_spans scenario_trace) "api"
             api_in_scenario_services).
  - reflexivity.
Defined.

Lemma services_are_the_resolved_services_witness :
  (∃ span, span ∈ spans scenario_trace
         ∧ resolved_service (processes scenario_trace) span = Some "api")
  ∧ "api" ∈ services (analyze_trace scenario_trace).
Proof.
  assert (∃ span, span ∈ spans scenario_trace
                ∧ resolved_service (processes scenario_trace) span = Some "api")
    as Hspan.
  { eexists. split; [apply list_elem_of_here | reflexivity]. }
  split; [exact Hspan |].
  apply (proj2 (proj2 (proj2 (services_are_the_resolved_services scenario_trace))
                  "api") Hspan).
Defined.

(** * Ranking the analyses *)

Lemma inject_nat_le (n m : nat) :
  (n ≤ m)%nat → (inject_Z (Z.of_nat n) <= inject_Z (Z.of_nat m))%Q.
Proof. intros H. rewrite <- Zle_Qle. lia. Qed.

Lemma sorted_by_ranking_key (sort : sort_field) (l : list TraceAnalysis) :
  StronglySorted (λ a b, (ranking_key sort b <= ranking_key sort a)%Q)
    (match sort with
     | SortDuration => sort_reverse total_duration_ms l
     | SortSpans => sort_reverse_nat span_count l
     | SortServices => sort_reverse_nat service_count l
     end).
Proof.
  destruct sort; simpl.
  - apply sort_reverse_sorted.
  - eapply StronglySorted_weaken; [| apply sort_reverse_nat_sorted].
    intros a b. apply inject_nat_le.
  - eapply StronglySorted_weaken; [| apply sort_reverse_nat_sorted].
    intros a b. apply inject_nat_le.
Qed.

Lemma ranked_perm (sort : sort_field) (l : list TraceAnalysis) :
  match sort with
  | SortDuration => sort_reverse total_duration_ms l
  | SortSpans => sort_reverse_nat span_count l
  | SortServices => sort_reverse_nat service_count l
  end ≡ₚ l.
Proof. destruct sort; apply stable_sort_perm. Qed.

(** X8. Without [--top], and also with [--top 0], every trace that was
    retrieved is reported once, and the analyses are in descending order
    of the field chosen with [--sort]. *)
Theorem ranking_without_top (sort : sort_field) (top : option Z)
    (traces : list Trace) :
  top = None ∨ top = Some 0%Z →
  analyze_and_rank sort top traces ≡ₚ map analyze_trace traces
  ∧ StronglySorted (λ a b, (ranking_key sort b <= ranking_key sort a)%Q)
      (analyze_and_rank sort top traces).
Proof.
  intros Htop. unfold analyze_and_rank. cbv zeta.
  assert (match top with
          | Some n =>
            if (n =? 0)%Z
            then match sort with
                 | SortDuration => sort_reverse total_duration_ms (map analyze_trace traces)
                 | SortSpans => sort_reverse_nat span_count (map analyze_trace traces)
                 | SortServices => sort_reverse_nat service_count (map analyze_trace traces)
                 end
            else py_slice_to n
                   match sort with
                   | SortDuration => sort_reverse total_duration_ms (map analyze_trace traces)
                   | SortSpans => sort_reverse_nat span_count (map analyze_trace traces)
                   | SortServices => sort_reverse_nat service_count (map analyze_trace traces)
                   end
          | None =>
            match sort with
            | SortDuration => sort_reverse total_duration_ms (map analyze_trace traces)
            | SortSpans => sort_reverse_nat span_count (map analyze_trace traces)
            | SortServices => sort_reverse_nat service_count (map analyze_trace traces)
            end
          end
          = match sort with
            | SortDuration => sort_reverse total_duration_ms (map analyze_trace traces)
            | SortSpans => sort_reverse_nat span_count (map analyze_trace traces)
            | SortServices => sort_reverse_nat service_count (map analyze_trace traces)
            end) as ->.
  { by destruct Htop as [-> | ->]. }
  split; [apply ranked_perm | apply sorted_by_ranking_key].
Qed.

Lemma ranking_without_top_witness :
  (Some 0%Z = None ∨ Some 0%Z = Some 0%Z)
  ∧ analyze_and_rank SortSpans (Some 0%Z) [scenario_trace; orphan_trace]
    ≡ₚ map analyze_trace [scenario_trace; orphan_trace].
Proof.
  assert (Some 0%Z = None ∨ Some 0%Z = Some 0%Z) as H by (by right).
  split; [exact H |].
  apply (proj1 (ranking_without_top SortSpans (Some 0%Z)
                  [scenario_trace; orphan_trace] H)).
Defined.

Lemma py_slice_to_split {A} (n : Z) (l : list A) :
  ∃ rest, l = py_slice_to n l ++ rest
        ∧ length (py_slice_to n l)
          = (if (0 <=? n)%Z then Nat.min (Z.to_nat n) (length l)
             else length l - Z.to_nat (- n))%nat.
Proof.
  unfold py_slice_to. destruct (0 <=? n)%Z.
  - exists (drop (Z.to_nat n) l). split; [by rewrite take_drop |].
    apply length_take.
  - exists (drop (length l - Z.to_nat (- n)) l).
    split; [by rewrite take_drop |]. rewrite length_take.
    apply Nat.min_l, Nat.le_sub_l.
Qed.

(** X9. With [--top n] for a positive [n] the report has the first [n]
    analyses of the full ranking (all of them if there are fewer), and for
    a negative [n] it drops the last [-n] of the ranking instead; in
    both cases no analysis that is left out ranks above one that is
    kept. *)
Theorem ranking_with_top (sort : sort_field) (n : Z) (traces : list Trace) :
  n ≠ 0%Z →
  let full := analyze_and_rank sort None traces in
  let kept := analyze_and_rank sort (Some n) traces in
  ∃ left_out,
    full = kept ++ left_out
    ∧ length kept
      = (if (0 <=? n)%Z then Nat.min (Z.to_nat n) (length traces)
         else length traces - Z.to_nat (- n))%nat
    ∧ ∀ a b, a ∈ kept → b ∈ left_out →
             (ranking_key sort b <= ranking_key sort a)%Q.
Proof.
  intros Hn full kept. subst full kept. unfold analyze_and_rank. cbv zeta.
  apply Z.eqb_neq in Hn. rewrite Hn.
  set (ranked := match sort with
                 | SortDuration => sort_reverse total_duration_ms (map analyze_trace traces)
                 | SortSpans => sort_reverse_nat span_count (map analyze_trace traces)
                 | SortServices => sort_reverse_nat service_count (map analyze_trace traces)
                 end).
  destruct (py_slice_to_split n ranked) as (rest & Heq & Hlen).
  exists rest. split; [exact Heq |]. split.
  - rewrite Hlen.
    assert (length ranked = length traces) as ->; [| done].
    subst ranked. rewrite (Permutation_length (ranked_perm sort _)).
    apply length_map.
  - intros a b Ha Hb.
    pose proof (sorted_by_ranking_key sort (map analyze_trace traces)) as Hs.
    fold ranked in Hs. rewrite Heq in Hs.
    by apply (StronglySorted_app_1_elem_of _ _ _ _ _ Hs).
Qed.

Lemma ranking_with_top_witness :
  (1 ≠ 0)%Z
  ∧ ∃ left_out,
      analyze_and_rank SortSpans None [orphan_trace; scenario_trace]
      = analyze_and_rank SortSpans (Some 1%Z) [orphan_trace; scenario_trace]
        ++ left_out
      ∧ length (analyze_and_rank SortSpans (Some 1%Z)
                  [orphan_trace; scenario_trace]) = 1.
Proof.
  assert (1 ≠ 0)%Z as H by discriminate.
  split; [exact H |].
  destruct (ranking_with_top SortSpans 1 [orphan_trace; scenario_trace] H)
    as (left_out & Heq & Hlen & _).
  exists left_out. split; [exact Heq | exact Hlen].
Defined.

(** X10. The summary shows the first five long operations, or all of
    them when there are fewer: the operations shown are the list without
    the ones that are hidden, their number is the smaller of 5 and the
    number of long operations, and no long operation that is hidden
    lasted longer than one that is shown. *)
Theorem summary_shows_five_longest (trace : Trace) :
  let shown := shown_long_operations (analyze_trace trace) in
  length shown = Nat.min 5 (length (long_operations (analyze_trace trace)))
  ∧ ∃ hidden,
      long_operations (analyze_trace trace) = shown ++ hidden
      ∧ ∀ a b, a ∈ shown → b ∈ hidden →
               (lo_duration_ms b <= lo_duration_ms a)%Q.
Proof.
  unfold shown_long_operations.
  destruct (py_slice_to_split 5 (long_operations (analyze_trace trace)))
    as (hidden & Heq & Hlen).
  split; [exact Hlen |].
  exists hidden. split; [exact Heq |].
  intros a b Ha Hb.
  pose proof (long_operations_sorted trace) as Hs. rewrite Heq in Hs.
  by apply (StronglySorted_app_1_elem_of _ _ _ _ _ Hs).
Qed.

(** * Further properties of the SLO functions *)

(** ** Sequences of calls *)

Lemma M_bind_returned {A B} (m : M A) (k : A → M B) (s : Sink) (a : A) :
  result m s = Returned a → (m ≫= k) s = k a (exec m s).
Proof.
  unfold result, exec, mbind, M_bind, bind.
  destruct (m s) as [[a' | e] s']; simpl; [| discriminate].
  by intros [= ->].
Qed.

Lemma exec_bind {A B} (m : M A) (k : A → M B) (s : Sink) (a : A) :
  result m s = Returned a → exec (m ≫= k) s = exec (k a) (exec m s).
Proof. intros H. unfold exec at 1. by rewrite (M_bind_returned m k s a). Qed.

Lemma result_bind {A B} (m : M A) (k : A → M B) (s : Sink) (a : A) :
  result m s = Returned a → result (m ≫= k) s = result (k a) (exec m s).
Proof. intros H. unfold result at 1. by rewrite (M_bind_returned m k s a). Qed.

Lemma exec_update_slo_compliance_gauges
    (endpoint slo_name : string) (c : Q) (window : string) (s : Sink) :
  let s' := exec (update_slo_compliance endpoint slo_name c window) s in
  SLO_LATENCY_BUCKET s' = SLO_LATENCY_BUCKET s
  ∧ SLO_ERROR_COUNTER s' = SLO_ERROR_COUNTER s
  ∧ SLO_COMPLIANCE s'
    = compliance_after endpoint slo_name c window (SLO_COMPLIANCE s)
  ∧ SLO_ERROR_BUDGET s' = budget_after slo_name c window (SLO_ERROR_BUDGET s).
Proof.
  unfold compliance_after, budget_after.
  destruct (window_cases window) as [Hw | [-> | Hw]].
  - rewrite update_slo_compliance_invalid_window by exact Hw.
    rewrite !bool_decide_eq_false_2; [done | | done].
    intros H. apply Hw. by apply list_elem_of_further.
  - destruct (exec_update_slo_compliance_immediate endpoint slo_name c s)
      as (H1 & H2 & H3 & H4).
    by rewrite H1, H2, H3, H4.
  - rewrite (bool_decide_eq_true_2 (window ∈ ["immediate"; _; _; _]))
      by (by apply list_elem_of_further).
    rewrite (bool_decide_eq_true_2 (window ∈ ["5m"; _; _])) by exact Hw.
    destruct (SLO_DEFINITIONS !! slo_name) as [d |] eqn:Hd.
    + by destruct (exec_update_slo_compliance_window endpoint slo_name c window
                     d s Hd Hw) as (_ & -> & -> & -> & ->).
    + rewrite update_slo_compliance_unknown;
        [done | by apply list_elem_of_further | done].
Qed.

Lemma compliance_after_twice (endpoint slo_name : string) (c1 c2 : Q)
    (window : string) (gauge : gmap (string * string * string) Q) :
  compliance_after endpoint slo_name c2 window
    (compliance_after endpoint slo_name c1 window gauge)
  = compliance_after endpoint slo_name c2 window gauge.
Proof.
  unfold compliance_after. case_bool_decide; [| done].
  destruct (SLO_DEFINITIONS !! slo_name); [| done].
  apply insert_insert_eq.
Qed.

Lemma budget_after_twice (slo_name : string) (c1 c2 : Q) (window : string)
    (gauge : gmap (string * string) Q) :
  budget_after slo_name c2 window (budget_after slo_name c1 window gauge)
  = budget_after slo_name c2 window gauge.
Proof.
  unfold budget_after. case_bool_decide; [| done].
  destruct (SLO_DEFINITIONS !! slo_name); [| done].
  apply insert_insert_eq.
Qed.

(** X11. The gauges hold the latest evaluation only. After two updates
    for the same endpoint, SLO and window the metrics are the same as
    after the second update alone; in particular, repeating an update
    changes no metric. *)
Theorem update_slo_compliance_latest_wins
    (endpoint slo_name : string) (c1 c2 : Q) (window : string) (s : Sink) :
  same_metrics
    (exec (update_slo_compliance endpoint slo_name c1 window;;
           update_slo_compliance endpoint slo_name c2 window) s)
    (exec (update_slo_compliance endpoint slo_name c2 window) s).
Proof.
  rewrite (exec_bind _ _ s tt) by apply update_slo_compliance_returns.
  destruct (exec_update_slo_compliance_gauges endpoint slo_name c1 window s)
    as (A1 & A2 & A3 & A4).
  destruct (exec_update_slo_compliance_gauges endpoint slo_name c2 window s)
    as (B1 & B2 & B3 & B4).
  destruct (exec_update_slo_compliance_gauges endpoint slo_name c2 window
              (exec (update_slo_compliance endpoint slo_name c1 window) s))
    as (C1 & C2 & C3 & C4).
  unfold same_metrics.
  rewrite C1, C2, C3, C4, A1, A2, A3, A4, B1, B2, B3, B4.
  by rewrite compliance_after_twice, budget_after_twice.
Qed.

Lemma exec_track_request_for_slo_metrics
    (endpoint slo_name : string) (latency : Q) (is_error : bool) (s : Sink) :
  let s' := exec (track_request_for_slo endpoint slo_name latency is_error) s in
  SLO_COMPLIANCE s' = SLO_COMPLIANCE s
  ∧ SLO_ERROR_BUDGET s' = SLO_ERROR_BUDGET s
  ∧ SLO_LATENCY_BUCKET s'
    = (if recorded endpoint slo_name then
         <[(endpoint, slo_name) :=
             default [] (SLO_LATENCY_BUCKET s !! (endpoint, slo_name))
               ++ [latency]]> (SLO_LATENCY_BUCKET s)
       else SLO_LATENCY_BUCKET s)
  ∧ SLO_ERROR_COUNTER s'
    = (if recorded endpoint slo_name && is_error then
         <[(endpoint, slo_name) :=
             S (default 0 (SLO_ERROR_COUNTER s !! (endpoint, slo_name)))]>
           (SLO_ERROR_COUNTER s)
       else SLO_ERROR_COUNTER s).
Proof.
  unfold recorded.
  destruct (SLO_DEFINITIONS !! slo_name) as [d |] eqn:Hd.
  - case_bool_decide as He.
    + destruct (exec_track_request_for_slo_match endpoint slo_name latency
                  is_error d s Hd He) as (_ & -> & -> & -> & ->).
      by destruct is_error.
    + by rewrite (track_request_for_slo_other_endpoint _ _ _ _ d).
  - by rewrite track_request_for_slo_unknown.
Qed.

(** X12. The recorder and the evaluator act on different metrics:
    whatever their arguments, calling them in either order leaves the
    same metrics. *)
Theorem recorder_and_evaluator_commute
    (endpoint slo_name : string) (latency : Q) (is_error : bool)
    (endpoint' slo_name' : string) (c : Q) (window : string) (s : Sink) :
  same_metrics
    (exec (track_request_for_slo endpoint slo_name latency is_error;;
           update_slo_compliance endpoint' slo_name' c window) s)
    (exec (update_slo_compliance endpoint' slo_name' c window;;
           track_request_for_slo endpoint slo_name latency is_error) s).
Proof.
  rewrite (exec_bind (track_request_for_slo _ _ _ _) _ s tt)
    by apply track_request_for_slo_returns.
  rewrite (exec_bind (update_slo_compliance _ _ _ _) _ s tt)
    by apply update_slo_compliance_returns.
  set (st := exec (track_request_for_slo endpoint slo_name latency is_error) s).
  set (su := exec (update_slo_compliance endpoint' slo_name' c window) s).
  destruct (exec_track_request_for_slo_metrics endpoint slo_name latency
              is_error s) as (T1 & T2 & T3 & T4).
  destruct (exec_update_slo_compliance_gauges endpoint' slo_name' c window s)
    as (U1 & U2 & U3 & U4).
  destruct (exec_track_request_for_slo_metrics endpoint slo_name latency
              is_error su) as (V1 & V2 & V3 & V4).
  destruct (exec_update_slo_compliance_gauges endpoint' slo_name' c window st)
    as (W1 & W2 & W3 & W4).
  fold st in T1, T2, T3, T4. fold su in U1, U2, U3, U4.
  unfold same_metrics.
  by rewrite W1, W2, W3, W4, V1, V2, V3, V4, T1, T2, T3, T4, U1, U2, U3, U4.
Qed.

Lemma record_sequence_returns (endpoint slo_name : string)
    (observations : list (Q * bool)) (s : Sink) :
  result (record_sequence endpoint slo_name observations) s = Returned tt.
Proof.
  revert s. induction observations as [| [latency is_error] rest IH];
    intros s; simpl; [done |].
  rewrite (result_bind _ _ s tt) by apply track_request_for_slo_returns.
  apply IH.
Qed.

(** X13. A sequence of recordings for one endpoint and SLO never fails
    and leaves the gauges alone. If the endpoint belongs to the SLO, the
    histogram of the pair holds its earlier samples followed by all the
    latencies in the order of the calls, and its error counter has grown
    by the number of observations flagged as errors; otherwise nothing is
    added. No other histogram or counter changes. *)
Theorem record_sequence_accumulates (endpoint slo_name : string)
    (observations : list (Q * bool)) (s : Sink) :
  let s' := exec (record_sequence endpoint slo_name observations) s in
  let key := (endpoint, slo_name) in
  result (record_sequence endpoint slo_name observations) s = Returned tt
  ∧ SLO_COMPLIANCE s' = SLO_COMPLIANCE s
  ∧ SLO_ERROR_BUDGET s' = SLO_ERROR_BUDGET s
  ∧ default [] (SLO_LATENCY_BUCKET s' !! key)
    = default [] (SLO_LATENCY_BUCKET s !! key)
        ++ (if recorded endpoint slo_name then observations.*1 else [])
  ∧ default 0 (SLO_ERROR_COUNTER s' !! key)
    = (default 0 (SLO_ERROR_COUNTER s !! key)
       + (if recorded endpoint slo_name
          then length (filter (λ o : Q * bool, o.2 = true) observations)
          else 0))%nat
  ∧ ∀ other, other ≠ key →
      SLO_LATENCY_BUCKET s' !! other = SLO_LATENCY_BUCKET s !! other
      ∧ SLO_ERROR_COUNTER s' !! other = SLO_ERROR_COUNTER s !! other.
Proof.
  cbv zeta. split; [apply record_sequence_returns |].
  revert s. induction observations as [| [latency is_error] rest IH];
    intros s.
  - simpl. destruct (recorded endpoint slo_name);
      rewrite app_nil_r, Nat.add_0_r; by repeat split.
  - cbn [record_sequence].
    rewrite (exec_bind _ _ s tt) by apply track_request_for_slo_returns.
    destruct (exec_track_request_for_slo_metrics endpoint slo_name latency
                is_error s) as (T1 & T2 & T3 & T4).
    destruct (IH (exec (track_request_for_slo endpoint slo_name latency
                          is_error) s)) as (I1 & I2 & I3 & I4 & I5).
    rewrite I1, I2, I3, I4, T1, T2, T3, T4. clear I1 I2 I3 I4.
    split; [done |]. split; [done |].
    rewrite filter_cons. cbn [snd fmap list_fmap fst].
    destruct (recorded endpoint slo_name) eqn:Hrec; cbn [andb].
    + split; [| split].
      * rewrite lookup_insert_eq. cbn [from_option id].
        by rewrite <- app_assoc.
      * destruct is_error.
        -- rewrite decide_True by done. rewrite lookup_insert_eq.
           cbn [from_option id length]. lia.
        -- by rewrite decide_False by done.
      * intros other Hother. destruct (I5 other Hother) as [-> ->].
        rewrite T3, T4. cbn [andb].
        rewrite lookup_insert_ne by done.
        destruct is_error; [by rewrite lookup_insert_ne | done].
    + split; [by rewrite app_nil_r |]. split; [lia |].
      intros other Hother. destruct (I5 other Hother) as [-> ->].
      by rewrite T3, T4.
Qed.

Lemma record_sequence_accumulates_witness :
  ("read_root", "api_health") ≠ ("health_check", "api_health")
  ∧ SLO_LATENCY_BUCKET
      (exec (record_sequence "health_check" "api_health"
               [(1 # 100, false); (3 # 10, true)]) empty_sink)
      !! ("read_root", "api_health") = None.
Proof.
  assert (("read_root", "api_health") ≠ ("health_check", "api_health")) as H
    by discriminate.
  split; [exact H |].
  apply (proj1 (proj2 (proj2 (proj2 (proj2 (proj2
           (record_sequence_accumulates "health_check" "api_health"
              [(1 # 100, false); (3 # 10, true)] empty_sink)))))
           ("read_root", "api_health") H)).
Defined.

Example record_sequence_scenario :
  let s' := exec (record_sequence "health_check" "api_health"
                    [(1 # 100, false); (3 # 10, true); (2 # 100, true)])
              empty_sink in
  SLO_LATENCY_BUCKET s' !! ("health_check", "api_health")
  = Some [1 # 100; 3 # 10; 2 # 100]
  ∧ SLO_ERROR_COUNTER s' !! ("health_check", "api_health") = Some 2.
Proof. split; vm_compute; reflexivity. Qed.

(** ** The budget and the log as the compliance ratio varies *)











(** ** The callers of the recorder *)

Lemma Zgeb_spec (x y : Z) : Zgeb x y = bool_decide (y ≤ x)%Z.
Proof. apply Zgeb_decide. Qed.

(** X16. The metrics middleware never fails in its SLO block and never
    touches the gauges. For each of the five endpoint names it tracks,
    the SLO it picks has that endpoint in the catalogue, so that the
    request is always recorded: one sample is added to the histogram of
    the endpoint and that SLO, and the error counter goes up exactly when
    the status code is 400 or more. For any other endpoint name the sink
    is left as it is. *)
Theorem middleware_always_records_tracked_endpoints
    (endpoint_name : string) (duration : Q) (status_code : Z) (s : Sink) :
  let s' := exec (dispatch_track_slo endpoint_name duration status_code) s in
  result (dispatch_track_slo endpoint_name duration status_code) s = Returned tt
  ∧ SLO_COMPLIANCE s' = SLO_COMPLIANCE s
  ∧ SLO_ERROR_BUDGET s' = SLO_ERROR_BUDGET s
  ∧ (endpoint_name ∈ ["read_root"; "health_check"; "get_external_data";
                      "read_users"; "read_items"] →
     ∃ slo_name,
       recorded endpoint_name slo_name = true
       ∧ SLO_LATENCY_BUCKET s'
         = <[(endpoint_name, slo_name) :=
               default [] (SLO_LATENCY_BUCKET s !! (endpoint_name, slo_name))
                 ++ [duration]]> (SLO_LATENCY_BUCKET s)
       ∧ SLO_ERROR_COUNTER s'
         = (if bool_decide (400 ≤ status_code)%Z then
              <[(endpoint_name, slo_name) :=
                  S (default 0 (SLO_ERROR_COUNTER s !! (endpoint_name, slo_name)))]>
                (SLO_ERROR_COUNTER s)
            else SLO_ERROR_COUNTER s))
  ∧ (endpoint_name ∉ ["read_root"; "health_check"; "get_external_data";
                      "read_users"; "read_items"] → s' = s).
Proof.
  cbv zeta. unfold dispatch_track_slo. cbv zeta.
  destruct (decide (endpoint_name ∈ ["read_root"; "health_check";
                                     "get_external_data"; "read_users";
                                     "read_items"])) as [Hin | Hout].
  - rewrite (bool_decide_eq_true_2 _ Hin).
    match goal with
    | |- context [track_request_for_slo _ ?slo _ _] => set (slo_name := slo)
    end.
    destruct (exec_track_request_for_slo_metrics endpoint_name slo_name
                duration (Zgeb status_code 400) s) as (T1 & T2 & T3 & T4).
    split; [apply track_request_for_slo_returns |].
    split; [exact T1 |]. split; [exact T2 |]. split; [| done].
    intros _. exists slo_name.
    assert (recorded endpoint_name slo_name = true) as Hrec.
    { subst slo_name.
      repeat (apply elem_of_cons in Hin as [-> | Hin]; [reflexivity |]).
      by apply elem_of_nil in Hin. }
    rewrite Hrec in T3, T4. cbn [andb] in T3, T4.
    split; [exact Hrec |]. split; [exact T3 |].
    rewrite <- Zgeb_spec. exact T4.
  - rewrite (bool_decide_eq_false_2 _ Hout).
    split; [done |]. split; [done |]. split; [done |].
    split; [by intros Hin | done].
Qed.

Lemma middleware_always_records_tracked_endpoints_witness :
  "read_items" ∈ ["read_root"; "health_check"; "get_external_data";
                  "read_users"; "read_items"]
  ∧ ∃ slo_name,
      recorded "read_items" slo_name = true
      ∧ SLO_LATENCY_BUCKET
          (exec (dispatch_track_slo "read_items" (2 # 100) 200) empty_sink)
        = <[("read_items", slo_name) := [2 # 100]]> ∅.
Proof.
  assert ("read_items" ∈ ["read_root"; "health_check"; "get_external_data";
                          "read_users"; "read_items"]) as Hin
    by (do 4 apply list_elem_of_further; apply list_elem_of_here).
  split; [exact Hin |].
  destruct (proj1 (proj2 (proj2 (proj2
              (middleware_always_records_tracked_endpoints
                 "read_items" (2 # 100) 200 empty_sink)))) Hin)
    as (slo_name & Hrec & Hlat & _).
  exists slo_name. split; [exact Hrec | exact Hlat].
Defined.

(** X17. The SLO block of the health endpoint never fails; it adds the
    duration to the histogram of ("health_check", "api_health"), counts
    an error exactly when the check is flagged as one, sets the
    "immediate" compliance gauge to 1 for a healthy check and to 0 for a
    failed one, and leaves the error-budget gauge alone. *)
Theorem health_check_slo_effect (duration : Q) (is_error : bool) (s : Sink) :
  let s' := exec (health_check_slo duration is_error) s in
  let key := ("health_check", "api_health") in
  result (health_check_slo duration is_error) s = Returned tt
  ∧ SLO_LATENCY_BUCKET s'
    = <[key := default [] (SLO_LATENCY_BUCKET s !! key) ++ [duration]]>
        (SLO_LATENCY_BUCKET s)
  ∧ SLO_ERROR_COUNTER s'
    = (if is_error then
         <[key := S (default 0 (SLO_ERROR_COUNTER s !! key))]> (SLO_ERROR_COUNTER s)
       else SLO_ERROR_COUNTER s)
  ∧ SLO_COMPLIANCE s'
    = <[("health_check", "api_health", "immediate") :=
          if is_error then 0%Q else 1%Q]> (SLO_COMPLIANCE s)
  ∧ SLO_ERROR_BUDGET s' = SLO_ERROR_BUDGET s.
Proof.
  cbv zeta. unfold health_check_slo.
  rewrite (result_bind _ _ s tt) by apply track_request_for_slo_returns.
  rewrite (exec_bind _ _ s tt) by apply track_request_for_slo_returns.
  destruct (exec_track_request_for_slo_metrics "health_check" "api_health"
              duration is_error s) as (T1 & T2 & T3 & T4).
  set (st := exec (track_request_for_slo "health_check" "api_health"
                     duration is_error) s) in *.
  destruct (exec_update_slo_compliance_gauges "health_check" "api_health"
              (if is_error then 0%Q else 1%Q) "immediate" st)
    as (U1 & U2 & U3 & U4).
  split; [apply update_slo_compliance_returns |].
  rewrite U1, U2, U3, U4, T1, T2, T3, T4.
  by repeat split.
Qed.

(** ** The SLO manager *)

Lemma existsb_eqb_elem_of (e : string) (l : list string) :
  existsb (λ e', String.eqb e' e) l = true ↔ e ∈ l.
Proof.
  rewrite existsb_exists. split.
  - intros (e' & Hin & ->%String.eqb_eq). by apply list_elem_of_In.
  - intros Hin. exists e. split; [by apply list_elem_of_In |].
    apply String.eqb_refl.
Qed.

Lemma find_affected_slo_Some (definitions : list (string * SloDefinition))
    (endpoint slo_name : string) :
  find_affected_slo definitions endpoint = Some slo_name ↔
  ∃ before d after,
    definitions = before ++ (slo_name, d) :: after
    ∧ endpoint ∈ endpoints d
    ∧ Forall (λ nd, endpoint ∉ endpoints nd.2) before.
Proof.
  induction definitions as [| [n d] rest IH]; simpl.
  - split; [done |]. intros (before & d & after & H & _). by destruct before.
  - destruct (existsb _ (endpoints d)) eqn:E.
    + apply existsb_eqb_elem_of in E. split.
      * intros [= ->]. exists [], d, rest. by repeat split.
      * intros ([| [n' d'] before] & d0 & after & Heq & Hin & Hbefore);
          simpl in Heq.
        -- by simplify_eq.
        -- simplify_eq. apply Forall_cons in Hbefore as [Hn _]. by destruct Hn.
    + apply not_true_iff_false in E. rewrite existsb_eqb_elem_of in E.
      rewrite IH. split.
      * intros (before & d0 & after & -> & Hin & Hbefore).
        exists ((n, d) :: before), d0, after.
        split; [done |]. split; [done |]. by constructor.
      * intros ([| [n' d'] before] & d0 & after & Heq & Hin & Hbefore);
          simpl in Heq.
        -- by simplify_eq.
        -- simplify_eq. apply Forall_cons in Hbefore as [_ Hbefore].
           by exists before, d0, after.
Qed.

Lemma find_affected_slo_None (definitions : list (string * SloDefinition))
    (endpoint : string) :
  find_affected_slo definitions endpoint = None ↔
  Forall (λ nd, endpoint ∉ endpoints nd.2) definitions.
Proof.
  induction definitions as [| [n d] rest IH]; simpl.
  - split; [constructor | done].
  - destruct (existsb _ (endpoints d)) eqn:E.
    + apply existsb_eqb_elem_of in E. split; [done |].
      intros [H _]%Forall_cons. by destruct H.
    + apply not_true_iff_false in E. rewrite existsb_eqb_elem_of in E.
      rewrite IH. split.
      * intros H. by constructor.
      * by intros [_ H]%Forall_cons.
Qed.

(** X18. The SLO that the load test reports for an endpoint is the
    first SLO of the manager's catalogue that lists the endpoint, and
    there is none exactly when no SLO lists it. Every pair of an endpoint
    and an SLO found in this way is also accepted by the recorder of the
    API, whose catalogue lists the same endpoints and more. *)
Theorem affected_slo_is_first_match (endpoint : string) :
  (∀ slo_name, affected_slo endpoint = Some slo_name ↔
     ∃ before d after,
       MANAGER_SLO_DEFINITIONS = before ++ (slo_name, d) :: after
       ∧ endpoint ∈ endpoints d
       ∧ Forall (λ nd, endpoint ∉ endpoints nd.2) before)
  ∧ (affected_slo endpoint = None ↔
     Forall (λ nd, endpoint ∉ endpoints nd.2) MANAGER_SLO_DEFINITIONS)
  ∧ (∀ slo_name, affected_slo endpoint = Some slo_name →
       recorded endpoint slo_name = true).
Proof.
  split; [| split].
  - intros slo_name. apply find_affected_slo_Some.
  - apply find_affected_slo_None.
  - intros slo_name H. apply find_affected_slo_Some in H
      as (before & d & after & Heq & Hin & _).
    assert ((slo_name, d) ∈ MANAGER_SLO_DEFINITIONS) as Hd.
    { rewrite Heq. apply elem_of_app. right. apply list_elem_of_here. }
    unfold MANAGER_SLO_DEFINITIONS in Hd.
    repeat (apply elem_of_cons in Hd as [[= -> ->] | Hd];
            [repeat (apply elem_of_cons in Hin as [-> | Hin]; [reflexivity |]);
             by apply elem_of_nil in Hin |]).
    by apply elem_of_nil in Hd.
Qed.

Lemma affected_slo_is_first_match_witness :
  affected_slo "read_users" = Some "data_access"
  ∧ recorded "read_users" "data_access" = true.
Proof.
  assert (affected_slo "read_users" = Some "data_access") as H by reflexivity.
  split; [exact H |].
  apply (proj2 (proj2 (affected_slo_is_first_match "read_users"))
           "data_access" H).
Defined.

(** The endpoint "/health" is recorded by the API under "api_health",
    but the manager finds no SLO for it. *)
Example health_path_not_in_manager_catalogue :
  recorded "/health" "api_health" = true ∧ affected_slo "/health" = None.
Proof. split; reflexivity. Qed.

(** * The instrumentation wrappers *)

Ltac run_T :=
  unfold track_operation_time, track_db_operation, track_cache_operation,
    with_, try_except, mbind, T_bind, T_then, mret, T_ret, T_unit, T_raise,
    time_time, telemetry_trace_id, inc_operation, observe_span,
    inc_trace_error, observe_db, observe_cache in *;
  cbn [fst snd] in *.

(** X19. The wrapper of [track_operation_time] is transparent: the
    wrapped function runs once, after the operation counter of (service,
    operation) has been incremented, and its result or its exception is
    the result or the exception of the wrapper. When the function
    returns, exactly one duration, the time on the clock after the call
    minus the time before it, is added under the status "success". When
    it raises an exception derived from [Exception], the error counter of
    its class goes up by one and the duration is added under the status
    "error". For any other exception nothing more is recorded. *)
Theorem track_operation_time_transparent {A}
    (derives_from_Exception : string → bool)
    (operation_name service : string) (func : T A) (s : Telemetry) :
  let counted := (inc_operation service operation_name s).2 in
  let after := (func counted).2 in
  let final :=
    (track_operation_time derives_from_Exception operation_name service func s).2 in
  (track_operation_time derives_from_Exception operation_name service func s).1
    = (func counted).1
  ∧ OPERATION_COUNTER counted
    = <[(service, operation_name) :=
          S (default 0 (OPERATION_COUNTER s !! (service, operation_name)))]>
        (OPERATION_COUNTER s)
  ∧ OPERATION_COUNTER final = OPERATION_COUNTER after
  ∧ DB_OPERATION_LATENCY final = DB_OPERATION_LATENCY after
  ∧ CACHE_OPERATION_LATENCY final = CACHE_OPERATION_LATENCY after
  ∧ clock final = clock after
  ∧ match (func counted).1 with
    | Returned _ =>
      SPAN_DURATION final
      = <[(service, operation_name, "success") :=
            default [] (SPAN_DURATION after !! (service, operation_name, "success"))
              ++ [(clock after - clock s)%Q]]> (SPAN_DURATION after)
      ∧ ERROR_COUNTER final = ERROR_COUNTER after
    | Raised e =>
      if derives_from_Exception e then
        SPAN_DURATION final
        = <[(service, operation_name, "error") :=
              default [] (SPAN_DURATION after !! (service, operation_name, "error"))
                ++ [(clock after - clock s)%Q]]> (SPAN_DURATION after)
        ∧ ERROR_COUNTER final
          = <[(service, operation_name, e) :=
                S (default 0 (ERROR_COUNTER after !! (service, operation_name, e)))]>
              (ERROR_COUNTER after)
      else final = after
    end.
Proof.
  run_T.
  match goal with |- context [func ?st] => destruct (func st) as [[a | e] s1] end;
    cbn [fst snd].
  - by repeat split.
  - destruct (derives_from_Exception e); cbn [fst snd]; by repeat split.
Qed.

(** X20. A block run under [track_db_operation] keeps its outcome: its
    result or its exception is that of the [with] statement. On exit
    exactly one latency, the time on the clock at the exit minus the time
    when the context manager was made, is added to the histogram of
    (operation type, table, trace id), the trace id being the one that was
    current when the context manager was made; and the error counter of
    ("db", operation type and table joined by "_", class of the exception)
    goes up by one exactly when the block raised. *)
Theorem track_db_operation_accounting {A}
    (operation_type table : string) (body : T A) (s : Telemetry) :
  let after := (body s).2 in
  let final := (track_db_operation operation_type table body s).2 in
  let key := (operation_type, table, default "unknown" (span_trace_id s)) in
  (track_db_operation operation_type table body s).1 = (body s).1
  ∧ (with_metrics operation_type table body s).1 = (body s).1
  ∧ DB_OPERATION_LATENCY final
    = <[key := default [] (DB_OPERATION_LATENCY after !! key)
                 ++ [(clock after - clock s)%Q]]> (DB_OPERATION_LATENCY after)
  ∧ ERROR_COUNTER final
    = match (body s).1 with
      | Returned _ => ERROR_COUNTER after
      | Raised e =>
        <[("db", operation_type +:+ "_" +:+ table, e) :=
            S (default 0 (ERROR_COUNTER after
                            !! ("db", operation_type +:+ "_" +:+ table, e)))]>
          (ERROR_COUNTER after)
      end
  ∧ SPAN_DURATION final = SPAN_DURATION after
  ∧ OPERATION_COUNTER final = OPERATION_COUNTER after
  ∧ CACHE_OPERATION_LATENCY final = CACHE_OPERATION_LATENCY after
  ∧ clock final = clock after.
Proof.
  unfold with_metrics. run_T.
  destruct (body s) as [[a | e] s1]; cbn [fst snd]; by repeat split.
Qed.

(** X21. A block run under [track_cache_operation] keeps its outcome.
    On exit exactly one latency is added to the histogram of (operation,
    "true" for a hit and "false" for a miss, trace id), and the error
    counter of ("cache", operation, class of the exception) goes up by one
    exactly when the block raised. *)
Theorem track_cache_operation_accounting {A}
    (operation : string) (hit : bool) (body : T A) (s : Telemetry) :
  let after := (body s).2 in
  let final := (track_cache_operation operation hit body s).2 in
  let key := (operation, if hit then "true" else "false",
              default "unknown" (span_trace_id s)) in
  (track_cache_operation operation hit body s).1 = (body s).1
  ∧ CACHE_OPERATION_LATENCY final
    = <[key := default [] (CACHE_OPERATION_LATENCY after !! key)
                 ++ [(clock after - clock s)%Q]]> (CACHE_OPERATION_LATENCY after)
  ∧ ERROR_COUNTER final
    = match (body s).1 with
      | Returned _ => ERROR_COUNTER after
      | Raised e =>
        <[("cache", operation, e) :=
            S (default 0 (ERROR_COUNTER after !! ("cache", operation, e)))]>
          (ERROR_COUNTER after)
      end
  ∧ SPAN_DURATION final = SPAN_DURATION after
  ∧ OPERATION_COUNTER final = OPERATION_COUNTER after
  ∧ DB_OPERATION_LATENCY final = DB_OPERATION_LATENCY after
  ∧ clock final = clock after.
Proof.
  run_T.
  destruct (body s) as [[a | e] s1]; cbn [fst snd]; by repeat split.
Qed.
